(** * Access-control compliance review: a shallow embedding of [src/review.py]

    The development follows the Python module top to bottom: the three
    record types, the policy loader [read_policy_roles], the duplicate
    detector [find_duplicates] and the batch reviewer [review_access].

    Conventions.
    - A Python [str] is a Rocq [string] holding its UTF-8 bytes.  Equality
      is exact; byte-wise lexicographic order coincides with Python's
      code-point order.
    - A naive [datetime] is the number of microseconds since
      0001-01-01T00:00:00; a [timedelta] is a number of microseconds.
    - [datetime.today()] reads a wall clock.  The clock is a function from
      the number of earlier readings to the instant returned, and every
      function that reads it threads that counter.
    - A Python exception is a value of [exn]; fallible functions return
      [result]. *)

From Stdlib Require Import ZArith String Ascii List DecimalString.
From stdpp Require Import base decidable option list gmap sets strings sorting.

Local Open Scope string_scope.
Local Open Scope list_scope.
Local Open Scope nat_scope.
Set Warnings "-clear-no-such-hyp".

(** ** Python values the module relies on *)

Inductive exn : Type :=
  | OverflowError
  | ValueError (msg : string)
  | KeyError (key : string).

Inductive result (A : Type) : Type :=
  | Ok (a : A)
  | Raise (e : exn).
Arguments Ok {A} a.
Arguments Raise {A} e.

Definition result_bind {A B} (m : result A) (k : A → result B) : result B :=
  match m with
  | Ok a => k a
  | Raise e => Raise e
  end.

Notation "'let*' x := m 'in' k" := (result_bind m (λ x, k))
  (at level 10, x name, m at level 100, k at level 200).

Module Py.

(** [sep.join(l)] *)
Fixpoint join (sep : string) (l : list string) : string :=
  match l with
  | [] => ""
  | x :: rest =>
      match rest with
      | [] => x
      | _ :: _ => x +:+ sep +:+ join sep rest
      end
  end.

(** [sorted(s)] for a set of strings *)
Definition sorted (s : gset string) : list string :=
  merge_sort String.le (elements s).

(** [str(n)] for an [int] *)
Definition str_of_int (z : Z) : string :=
  NilZero.string_of_int (Z.to_int z).

(** [s.split(sep)] for a one-character separator *)
Fixpoint split (sep : ascii) (s : string) : list string :=
  match s with
  | EmptyString => [""]
  | String c t =>
      if decide (c = sep) then "" :: split sep t
      else match split sep t with
           | [] => [String c ""]
           | h :: r => String c h :: r
           end
  end.

(** Whitespace in the sense of [str.isspace], read off the UTF-8 bytes:
    U+0009..000D, U+001C..001F, U+0020 (one byte); U+0085, U+00A0 (two
    bytes); U+1680, U+2000..200A, U+2028, U+2029, U+202F, U+205F,
    U+3000 (three bytes). *)
Definition ws1 (a : ascii) : bool :=
  let n := N_of_ascii a in
  ((9 <=? n) && (n <=? 13) || (28 <=? n) && (n <=? 32))%N.

Definition ws2 (a b : ascii) : bool :=
  let x := N_of_ascii a in
  let y := N_of_ascii b in
  ((x =? 194) && ((y =? 133) || (y =? 160)))%N.

Definition ws3 (a b c : ascii) : bool :=
  let x := N_of_ascii a in
  let y := N_of_ascii b in
  let z := N_of_ascii c in
  ((x =? 225) && (y =? 154) && (z =? 128)
   || (x =? 226) && (y =? 128)
      && ((128 <=? z) && (z <=? 138) || (z =? 168) || (z =? 169) || (z =? 175))
   || (x =? 226) && (y =? 129) && (z =? 159)
   || (x =? 227) && (y =? 128) && (z =? 128))%N.

(** Drop leading whitespace.  With [back = true] the argument is a
    reversed string, so multi-byte characters are met last byte first. *)
Fixpoint strip_front (back : bool) (s : string) : string :=
  match s with
  | EmptyString => ""
  | String a t =>
      if ws1 a then strip_front back t
      else
        match t with
        | EmptyString => s
        | String b t2 =>
            if (if back then ws2 b a else ws2 a b) then strip_front back t2
            else
              match t2 with
              | EmptyString => s
              | String c t3 =>
                  if (if back then ws3 c b a else ws3 a b c)
                  then strip_front back t3
                  else s
              end
        end
  end.

Definition lstrip (s : string) : string := strip_front false s.
Definition rstrip (s : string) : string :=
  String.rev (strip_front true (String.rev s)).

(** [s.strip()] *)
Definition strip (s : string) : string := rstrip (lstrip s).

(** [x or ""] for an [Optional[str]] *)
Definition or_empty (x : option string) : string :=
  match x with
  | Some s => s
  | None => ""
  end.

(** [d[k]] and [d.get(k)] on a [csv.DictReader] row: a dictionary from
    column names to [Optional[str]] ([None] pads a short row). *)
Definition getitem (d : gmap string (option string)) (k : string)
  : result (option string) :=
  match d !! k with
  | Some v => Ok v
  | None => Raise (KeyError k)
  end.

Definition get (d : gmap string (option string)) (k : string) : option string :=
  match d !! k with
  | Some v => v
  | None => None
  end.

(** *** [datetime] and [timedelta] *)

Definition us_per_day : Z := 86400000000.

(** [timedelta(days=d)]: the magnitude of [d] is at most 999999999. *)
Definition timedelta_days (d : Z) : result Z :=
  if decide (Z.abs d ≤ 999999999)%Z then Ok (d * us_per_day)%Z
  else Raise OverflowError.

(** First instant after [datetime.max] (9999-12-31T23:59:59.999999). *)
Definition datetime_end : Z := (3652059 * us_per_day)%Z.

(** [t - d] for a [datetime] and a [timedelta]: the year stays in 1..9999. *)
Definition datetime_sub (t d : Z) : result Z :=
  let r := (t - d)%Z in
  if decide (0 ≤ r < datetime_end)%Z then Ok r
  else Raise OverflowError.

(** [(a - b).days] for two [datetime]s: a [timedelta] is normalised with
    seconds and microseconds non-negative, so [days] rounds down. *)
Definition diff_days (a b : Z) : Z := ((a - b) / us_per_day)%Z.

End Py.

(** ** Data models *)

Module AccessRow.
Record t : Type := mk {
  user_id : string;
  user_name : string;
  department : string;
  role : string;
  status : string;
  last_login : option Z
}.
End AccessRow.

Module PolicyRole.
Record t : Type := mk {
  role : string;
  allowed_departments : gset string;
  description : string
}.
End PolicyRole.

Module Violation.
Record t : Type := mk {
  user_id : string;
  user_name : string;
  department : string;
  role : string;
  issue : string;
  severity : string;
  details : string
}.

#[global] Instance eq_dec : EqDecision t.
Proof. solve_decision. Defined.
End Violation.

(** ** CSV helpers: [read_policy_roles] *)

Definition required_policy_columns : gset string :=
  {["role"; "department_allowed"; "description"]}.

(** [{"*"} if dep_raw == "*" else
     {d.strip() for d in dep_raw.split(",") if d.strip()}] *)
Definition allowed_departments_of (dep_raw : string) : gset string :=
  if decide (dep_raw = "*") then {["*"]}
  else list_to_set (filter (λ d, d ≠ "") (Py.strip <$> Py.split "," dep_raw)).

(** The body of the loop over [enumerate(reader, start=2)], with [roles]
    the dictionary built so far. *)
Fixpoint read_policy_rows (path : string) (i : nat)
    (reader : list (gmap string (option string)))
    (roles : gmap string PolicyRole.t) : result (gmap string PolicyRole.t) :=
  match reader with
  | [] => Ok roles
  | r :: rest =>
      let* role_raw := Py.getitem r "role" in
      let role := Py.strip (Py.or_empty role_raw) in
      if decide (role = "") then
        Raise (ValueError (path +:+ ": line " +:+ Py.str_of_int (Z.of_nat i)
                           +:+ ": empty role"))
      else
        let dep_raw := Py.strip (Py.or_empty (Py.get r "department_allowed")) in
        if decide (dep_raw = "") then
          Raise (ValueError (path +:+ ": line " +:+ Py.str_of_int (Z.of_nat i)
                             +:+ ": department_allowed is empty"))
        else
          let allowed := allowed_departments_of dep_raw in
          read_policy_rows path (S i) rest
            (<[role := PolicyRole.mk role allowed
                         (Py.strip (Py.or_empty (Py.get r "description")))]> roles)
  end.

Definition read_policy_roles (path : string) (fieldnames : list string)
    (reader : list (gmap string (option string)))
  : result (gmap string PolicyRole.t) :=
  let missing := required_policy_columns ∖ list_to_set fieldnames in
  if decide (missing = ∅) then read_policy_rows path 2 reader ∅
  else Raise (ValueError (path +:+ " is missing columns: "
                          +:+ Py.join ", " (Py.sorted missing))).

(** ** Validation logic *)

(** [find_duplicates]: one pass keeping the pairs [seen] so far and the
    pairs [dups] met again. *)
Definition find_duplicates_step (st : gset (string * string) * gset (string * string))
    (r : AccessRow.t) : gset (string * string) * gset (string * string) :=
  let '(seen, dups) := st in
  let key := (AccessRow.user_id r, AccessRow.role r) in
  if decide (key ∈ seen) then (seen, {[key]} ∪ dups)
  else ({[key]} ∪ seen, dups).

Definition find_duplicates (rows : list AccessRow.t) : gset (string * string) :=
  snd (fold_left find_duplicates_step rows (∅, ∅)).


(** The interpreter state [review_access] works on: the local list
    [violations] it appends to, and the number of clock readings made. *)
Record LoopState : Type := {
  violations : list Violation.t;
  ticks : nat
}.

Definition St (A : Type) : Type := LoopState → A * LoopState.

#[global] Instance St_ret : MRet St := λ A a w, (a, w).
#[global] Instance St_bind : MBind St := λ A B k m w,
  let '(a, w') := m w in k a w'.

(** [violations.append(v)] *)
Definition append (v : Violation.t) : St unit :=
  λ w, (tt, {| violations := violations w ++ [v]; ticks := ticks w |}).

(** [datetime.today()] *)
Definition today (clock : nat → Z) : St Z :=
  λ w, (clock (ticks w), {| violations := violations w; ticks := S (ticks w) |}).

(** [if c: body] *)
Definition when (c : Prop) `{Decision c} (body : St unit) : St unit :=
  if decide c then body else mret tt.

(** [for x in l: body(x)] *)
Fixpoint for_each {A} (body : A → St unit) (l : list A) : St unit :=
  match l with
  | [] => mret tt
  | x :: rest => body x ;; for_each body rest
  end.

(** [Violation(user_id=r.user_id, ..., role=r.role, issue=.., ...)] *)
Definition violation_of (r : AccessRow.t) (issue severity details : string)
  : Violation.t :=
  Violation.mk (AccessRow.user_id r) (AccessRow.user_name r)
    (AccessRow.department r) (AccessRow.role r) issue severity details.

Section review.
Variable clock : nat → Z.
Variable policy_roles : gmap string PolicyRole.t.
Variable duplicate_pairs : gset (string * string).
Variable stale_cutoff : Z.
Variable stale_days : Z.

(** The body of [for r in access_rows]; [continue] ends the body. *)
Definition review_row (r : AccessRow.t) : St unit :=
  match policy_roles !! AccessRow.role r with
  | None =>
      (* 1) Unknown role *)
      append (violation_of r "UNKNOWN_ROLE" "HIGH"
                "Role not found in policy catalog.")
  | Some policy =>
      (* 2) Role not allowed for this department *)
      when (("*" ∉ PolicyRole.allowed_departments policy)
            ∧ (AccessRow.department r ∉ PolicyRole.allowed_departments policy))
        (append (violation_of r "ROLE_NOT_ALLOWED_FOR_DEPARTMENT" "HIGH"
                   ("Role '" +:+ AccessRow.role r
                    +:+ "' allowed only for departments: "
                    +:+ Py.join ", "
                          (Py.sorted (PolicyRole.allowed_departments policy))))) ;;
      (* 3) Inactive user should not have any access *)
      (if decide (AccessRow.status r ∉ ({["active"; "inactive"]} : gset string))
       then
         append (violation_of r "INVALID_STATUS" "MEDIUM"
                   ("Status must be 'active' or 'inactive' (got '"
                    +:+ AccessRow.status r +:+ "')."))
       else
         when (AccessRow.status r = "inactive")
           (append (violation_of r "INACTIVE_USER_HAS_ACCESS" "HIGH"
                      "User is inactive but still assigned access."))) ;;
      (* 4) Duplicate user-role entries *)
      when ((AccessRow.user_id r, AccessRow.role r) ∈ duplicate_pairs)
        (append (violation_of r "DUPLICATE_USER_ROLE_ENTRY" "LOW"
                   "Duplicate user-role assignment found.")) ;;
      (* 5) Stale accounts *)
      match AccessRow.last_login r with
      | Some last_login =>
          when ((last_login < stale_cutoff)%Z ∧ AccessRow.status r = "active")
            (now ← today clock;
             let days := Py.diff_days now last_login in
             append (violation_of r "STALE_ACCOUNT" "LOW"
                       ("Last login " +:+ Py.str_of_int days
                        +:+ " days ago; threshold is "
                        +:+ Py.str_of_int stale_days +:+ " days.")))
      | None => mret tt
      end
  end.
End review.

(** [review_access], started when the clock has been read [t0] times.
    It returns what the call returns or raises, and the number of clock
    readings made by the time it ends. *)
Definition review_access (clock : nat → Z) (access_rows : list AccessRow.t)
    (policy_roles : gmap string PolicyRole.t) (stale_days : Z) (t0 : nat)
  : result (list Violation.t) * nat :=
  (* Precompute duplicates *)
  let duplicate_pairs := find_duplicates access_rows in
  let '(now, w) := today clock {| violations := []; ticks := t0 |} in
  match (let* delta := Py.timedelta_days stale_days in Py.datetime_sub now delta) with
  | Raise e => (Raise e, ticks w)
  | Ok stale_cutoff =>
      let '(_, w') :=
        for_each (review_row clock policy_roles duplicate_pairs stale_cutoff stale_days)
          access_rows w in
      (Ok (violations w'), ticks w')
  end.


(** ** Derived notions used to state the properties *)

Section rows.
Variable clock : nat → Z.
Variable policy_roles : gmap string PolicyRole.t.
Variable duplicate_pairs : gset (string * string).
Variable stale_cutoff : Z.
Variable stale_days : Z.

(** What one pass of the loop body does to a fresh list, entered when
    the clock has been read [n] times. *)
Definition row_run (r : AccessRow.t) (n : nat) : LoopState :=
  snd (review_row clock policy_roles duplicate_pairs stale_cutoff stale_days r
         {| violations := []; ticks := n |}).

(** The violations produced for entry [r]. *)
Definition row_violations (r : AccessRow.t) (n : nat) : list Violation.t :=
  violations (row_run r n).

Definition row_ticks (r : AccessRow.t) (n : nat) : nat :=
  ticks (row_run r n).

(** The per-entry violation lists of a batch, entry by entry. *)
Fixpoint row_segments (rows : list AccessRow.t) (n : nat)
  : list (list Violation.t) :=
  match rows with
  | [] => []
  | r :: rest => row_violations r n :: row_segments rest (row_ticks r n)
  end.

Fixpoint rows_ticks (rows : list AccessRow.t) (n : nat) : nat :=
  match rows with
  | [] => n
  | r :: rest => rows_ticks rest (row_ticks r n)
  end.
End rows.

(** Rule [issue] fires in [vs]. *)
Definition fires (issue : string) (vs : list Violation.t) : Prop :=
  ∃ v, v ∈ vs ∧ Violation.issue v = issue.

#[global] Instance fires_dec issue vs : Decision (fires issue vs).
Proof.
  refine (cast_if (decide (Exists (λ v, Violation.issue v = issue) vs)));
    unfold fires; rewrite Exists_exists in *; naive_solver.
Defined.

(** The fixed order in which the rules are evaluated. *)
Definition rule_order : list string :=
  ["UNKNOWN_ROLE"; "ROLE_NOT_ALLOWED_FOR_DEPARTMENT"; "INVALID_STATUS";
   "INACTIVE_USER_HAS_ACCESS"; "DUPLICATE_USER_ROLE_ENTRY"; "STALE_ACCOUNT"].

(** The violation copies the entry it is about. *)
Definition about (r : AccessRow.t) (v : Violation.t) : Prop :=
  Violation.user_id v = AccessRow.user_id r
  ∧ Violation.user_name v = AccessRow.user_name r
  ∧ Violation.department v = AccessRow.department r
  ∧ Violation.role v = AccessRow.role r.

(** Occurrences of a [(user_id, role)] pair in a batch, and
    DUPLICATE_USER_ROLE_ENTRY violations reported for it. *)
Definition pair_count (p : string * string) (rows : list AccessRow.t) : nat :=
  length (filter (λ r, (AccessRow.user_id r, AccessRow.role r) = p) rows).

Definition duplicate_violations (p : string * string) (vs : list Violation.t) : nat :=
  length (filter (λ v, Violation.issue v = "DUPLICATE_USER_ROLE_ENTRY"
                       ∧ (Violation.user_id v, Violation.role v) = p) vs).

Definition stale_violations (vs : list Violation.t) : nat :=
  length (filter (λ v, Violation.issue v = "STALE_ACCOUNT") vs).

(** The six violations the body can append, named after their rule. *)
Definition unknown_role_violation (r : AccessRow.t) : Violation.t :=
  violation_of r "UNKNOWN_ROLE" "HIGH" "Role not found in policy catalog.".

Definition department_violation (r : AccessRow.t) (policy : PolicyRole.t)
  : Violation.t :=
  violation_of r "ROLE_NOT_ALLOWED_FOR_DEPARTMENT" "HIGH"
    ("Role '" +:+ AccessRow.role r +:+ "' allowed only for departments: "
     +:+ Py.join ", " (Py.sorted (PolicyRole.allowed_departments policy))).

Definition invalid_status_violation (r : AccessRow.t) : Violation.t :=
  violation_of r "INVALID_STATUS" "MEDIUM"
    ("Status must be 'active' or 'inactive' (got '"
     +:+ AccessRow.status r +:+ "').").

Definition inactive_violation (r : AccessRow.t) : Violation.t :=
  violation_of r "INACTIVE_USER_HAS_ACCESS" "HIGH"
    "User is inactive but still assigned access.".

Definition duplicate_violation (r : AccessRow.t) : Violation.t :=
  violation_of r "DUPLICATE_USER_ROLE_ENTRY" "LOW"
    "Duplicate user-role assignment found.".

Definition stale_violation (r : AccessRow.t) (now last_login stale_days : Z)
  : Violation.t :=
  violation_of r "STALE_ACCOUNT" "LOW"
    ("Last login " +:+ Py.str_of_int (Py.diff_days now last_login)
     +:+ " days ago; threshold is " +:+ Py.str_of_int stale_days +:+ " days.").

Section parts.
Variable clock : nat → Z.
Variable duplicate_pairs : gset (string * string).
Variable stale_cutoff : Z.
Variable stale_days : Z.

(** The four groups of violations of a row whose role is known. *)
Definition department_part (r : AccessRow.t) (policy : PolicyRole.t) : list Violation.t :=
  if decide (("*" ∉ PolicyRole.allowed_departments policy)
             ∧ (AccessRow.department r ∉ PolicyRole.allowed_departments policy))
  then [department_violation r policy]
  else [].

Definition status_part (r : AccessRow.t) : list Violation.t :=
  if decide (AccessRow.status r ∉ ({["active"; "inactive"]} : gset string))
  then [invalid_status_violation r]
  else if decide (AccessRow.status r = "inactive")
  then [inactive_violation r]
  else [].

Definition duplicate_part (r : AccessRow.t) : list Violation.t :=
  if decide ((AccessRow.user_id r, AccessRow.role r) ∈ duplicate_pairs)
  then [duplicate_violation r]
  else [].

Definition stale_part (r : AccessRow.t) (n : nat) : list Violation.t :=
  match AccessRow.last_login r with
  | Some last_login =>
      if decide ((last_login < stale_cutoff)%Z ∧ AccessRow.status r = "active")
      then [stale_violation r (clock n) last_login stale_days]
      else []
  | None => []
  end.

Definition known_role_parts (r : AccessRow.t) (policy : PolicyRole.t) (n : nat)
  : list Violation.t :=
  (department_part r policy ++ status_part r
   ++ duplicate_part r ++ stale_part r n)%list.

End parts.

(** The cutoff [datetime.today() - timedelta(days=stale_days)], from the
    reading [now]. *)
Definition cutoff_of (now stale_days : Z) : result Z :=
  let* delta := Py.timedelta_days stale_days in Py.datetime_sub now delta.

(** Catalog entry [p] under key [role] is what the loop body stores for
    [row]. *)
Definition loaded_from (row : gmap string (option string)) (role : string)
    (p : PolicyRole.t) : Prop :=
  ∃ role_raw,
    row !! "role" = Some role_raw
    ∧ role = Py.strip (Py.or_empty role_raw)
    ∧ role ≠ ""
    ∧ Py.strip (Py.or_empty (Py.get row "department_allowed")) ≠ ""
    ∧ p = PolicyRole.mk role
            (allowed_departments_of
               (Py.strip (Py.or_empty (Py.get row "department_allowed"))))
            (Py.strip (Py.or_empty (Py.get row "description"))).

(** Sample data for the examples. *)
Definition day (n : Z) : Z := (n * Py.us_per_day)%Z.

Definition example_catalog : gmap string PolicyRole.t :=
  {["analyst" := PolicyRole.mk "analyst" {["finance"; "ops"]} "";
    "viewer" := PolicyRole.mk "viewer" {["*"]} ""]}.

Definition policy_columns : list string :=
  ["role"; "department_allowed"; "description"].

Definition policy_row (role department_allowed description : string)
  : gmap string (option string) :=
  {["role" := Some role; "department_allowed" := Some department_allowed;
    "description" := Some description]}.

(** * Further definitions *)

(** An entry no rule objects to: its role is a key of the catalog, its
    department is allowed, its status is ["active"] and its last login, if
    any, is not before the cutoff. *)
Definition row_clean (policy_roles : gmap string PolicyRole.t)
    (stale_cutoff : Z) (r : AccessRow.t) : Prop :=
  ∃ policy,
    policy_roles !! AccessRow.role r = Some policy
    ∧ ("*" ∈ PolicyRole.allowed_departments policy
       ∨ AccessRow.department r ∈ PolicyRole.allowed_departments policy)
    ∧ AccessRow.status r = "active"
    ∧ ∀ last_login, AccessRow.last_login r = Some last_login →
                    (stale_cutoff ≤ last_login)%Z.

(** The key and the catalog entry the loader derives from a row of the
    policy file, and the rows it accepts. *)
Definition row_key (row : gmap string (option string)) : string :=
  Py.strip (Py.or_empty (Py.get row "role")).

Definition row_spec (row : gmap string (option string)) : string :=
  Py.strip (Py.or_empty (Py.get row "department_allowed")).

Definition row_policy (row : gmap string (option string)) : PolicyRole.t :=
  PolicyRole.mk (row_key row) (allowed_departments_of (row_spec row))
    (Py.strip (Py.or_empty (Py.get row "description"))).

Definition row_ok (row : gmap string (option string)) : Prop :=
  is_Some (row !! "role") ∧ row_key row ≠ "" ∧ row_spec row ≠ "".

(** Storing the rows one after the other, later rows overwriting. *)
Definition store_rows (reader : list (gmap string (option string)))
    (roles : gmap string PolicyRole.t) : gmap string PolicyRole.t :=
  fold_left (λ roles row, <[row_key row := row_policy row]> roles) reader roles.

(** ** CSV helpers: [read_access_list]

    Two library functions are left as parameters: [strptime s] stands for
    [datetime.strptime(s, "%Y-%m-%d")], with [None] when it raises
    ValueError, and [lower] for [str.lower]. *)

Definition required_access_columns : gset string :=
  {["user_id"; "user_name"; "department"; "role"; "status"; "last_login"]}.

Section read_access_list.
Variable strptime : string → option Z.
Variable lower : string → string.

(** The body of the loop over [enumerate(reader, start=2)], with [rows]
    the list built so far. *)
Fixpoint read_access_rows (path : string) (i : nat)
    (reader : list (gmap string (option string)))
    (rows : list AccessRow.t) : result (list AccessRow.t) :=
  match reader with
  | [] => Ok rows
  | r :: rest =>
      let last_login_raw := Py.strip (Py.or_empty (Py.get r "last_login")) in
      let* last_login_dt :=
        (if decide (last_login_raw = "") then Ok None
         else match strptime last_login_raw with
              | Some dt => Ok (Some dt)
              | None =>
                  Raise (ValueError
                           (path +:+ ": line " +:+ Py.str_of_int (Z.of_nat i)
                            +:+ ": invalid date '" +:+ last_login_raw
                            +:+ "' (expected YYYY-MM-DD)"))
              end) in
      let* user_id := Py.getitem r "user_id" in
      let* user_name := Py.getitem r "user_name" in
      let* department := Py.getitem r "department" in
      let* role := Py.getitem r "role" in
      let* status := Py.getitem r "status" in
      read_access_rows path (S i) rest
        (rows ++ [AccessRow.mk
                    (Py.strip (Py.or_empty user_id))
                    (Py.strip (Py.or_empty user_name))
                    (Py.strip (Py.or_empty department))
                    (Py.strip (Py.or_empty role))
                    (lower (Py.strip (Py.or_empty status)))
                    last_login_dt])
  end.

Definition read_access_list (path : string) (fieldnames : list string)
    (reader : list (gmap string (option string)))
  : result (list AccessRow.t) :=
  let missing := required_access_columns ∖ list_to_set fieldnames in
  if decide (missing = ∅) then read_access_rows path 2 reader []
  else Raise (ValueError (path +:+ " is missing columns: "
                          +:+ Py.join ", " (Py.sorted missing))).

(** The stripped [last_login] field of a row, the entry built from a row,
    and the rows the loader accepts. *)
Definition row_last_login (row : gmap string (option string)) : string :=
  Py.strip (Py.or_empty (Py.get row "last_login")).

Definition access_row_of (row : gmap string (option string)) : AccessRow.t :=
  AccessRow.mk
    (Py.strip (Py.or_empty (Py.get row "user_id")))
    (Py.strip (Py.or_empty (Py.get row "user_name")))
    (Py.strip (Py.or_empty (Py.get row "department")))
    (Py.strip (Py.or_empty (Py.get row "role")))
    (lower (Py.strip (Py.or_empty (Py.get row "status"))))
    (if decide (row_last_login row = "") then None
     else strptime (row_last_login row)).

Definition date_ok (row : gmap string (option string)) : Prop :=
  row_last_login row = "" ∨ is_Some (strptime (row_last_login row)).

Definition access_row_ok (row : gmap string (option string)) : Prop :=
  date_ok row
  ∧ Forall (λ k, is_Some (row !! k))
      ["user_id"; "user_name"; "department"; "role"; "status"].

End read_access_list.

(** ** Reporting: [print_summary] *)

Module Fmt.





End Fmt.

(** [d[k] += 1] on a [defaultdict(int)], as a map and, where the order of
    insertion matters, as the list of its items. *)
Definition incr (k : string) (d : gmap string nat) : gmap string nat :=
  <[k := S (default 0 (d !! k))]> d.

Fixpoint incr_items (k : string) (items : list (string * nat))
  : list (string * nat) :=
  match items with
  | [] => [(k, 1)]
  | (k', n) :: rest =>
      if decide (k' = k) then (k', S n) :: rest
      else (k', n) :: incr_items k rest
  end.

(** [sorted(items, key=lambda kv: kv[1], reverse=True)]: a stable sort,
    largest count first, items of equal count in their original order. *)
Fixpoint insert_by_count (x : string * nat) (l : list (string * nat))
  : list (string * nat) :=
  match l with
  | [] => [x]
  | y :: l' =>
      if decide (snd x < snd y) then y :: insert_by_count x l'
      else x :: y :: l'
  end.

Definition sorted_by_count (items : list (string * nat)) : list (string * nat) :=
  foldr insert_by_count [] items.

Record Tallies : Type := {
  by_issue : gmap string nat;
  by_sev : gmap string nat;
  by_user : list (string * nat)
}.

(** [f"{v.user_name} ({v.user_id})"] *)
Definition user_label (v : Violation.t) : string :=
  Violation.user_name v +:+ " (" +:+ Violation.user_id v +:+ ")".

Definition tally_step (t : Tallies) (v : Violation.t) : Tallies :=
  {| by_issue := incr (Violation.issue v) (by_issue t);
     by_sev := incr (Violation.severity v) (by_sev t);
     by_user := incr_items (user_label v) (by_user t) |}.

(** The three dictionaries after [for v in violations]. *)
Definition tallies (violations : list Violation.t) : Tallies :=
  fold_left tally_step violations
    {| by_issue := ∅; by_sev := ∅; by_user := [] |}.

(** [sorted(by_user.items(), key=lambda kv: kv[1], reverse=True)[:5]] *)
Definition top_users (violations : list Violation.t) : list (string * nat) :=
  take 5 (sorted_by_count (by_user (tallies violations))).


(** Occurrences of a value of [key] among the violations. *)
Definition tally_of (key : Violation.t → string) (k : string)
    (violations : list Violation.t) : nat :=
  length (filter (λ v, key v = k) violations).

(** The count stored under a key in the items of a dictionary, 0 when the
    key is absent. *)
Fixpoint items_count (k : string) (items : list (string * nat)) : nat :=
  match items with
  | [] => 0
  | (k', n) :: rest => if decide (k' = k) then n else items_count k rest
  end.

(** The sum of the values of a dictionary. *)
Definition dict_total (d : gmap string nat) : nat :=
  map_fold (λ _ n acc, n + acc) 0 d.

(** ** [write_violations] and [main]

    Files are given by what [csv.DictReader] yields for them and by the
    rows handed to [csv.DictWriter]; opening, creating and writing them is
    taken to succeed.  Paths are the text [str(path)]. *)




Section main.
Variable strptime : string → option Z.
Variable lower : string → string.
Variable clock : nat → Z.



End main.

(** Sample access-list data for the examples. *)
Definition access_columns : list string :=
  ["user_id"; "user_name"; "department"; "role"; "status"; "last_login"].

Definition access_row (user_id user_name department role status last_login : string)
  : gmap string (option string) :=
  {["user_id" := Some user_id; "user_name" := Some user_name;
    "department" := Some department; "role" := Some role;
    "status" := Some status; "last_login" := Some last_login]}.

(** ** Notions used to state the rules on the list a review returns *)

#[global] Instance about_dec r v : Decision (about r v).
Proof. unfold about. apply _. Defined.

(** Entries the violations cannot tell apart: a violation copies these
    four fields and nothing else of its entry. *)
Definition same_entry (r r' : AccessRow.t) : Prop :=
  AccessRow.user_id r' = AccessRow.user_id r
  ∧ AccessRow.user_name r' = AccessRow.user_name r
  ∧ AccessRow.department r' = AccessRow.department r
  ∧ AccessRow.role r' = AccessRow.role r.

#[global] Instance same_entry_dec r r' : Decision (same_entry r r').
Proof. unfold same_entry. apply _. Defined.

(** The condition of the staleness rule for an entry, against a cutoff. *)
Definition stale_entry (policy_roles : gmap string PolicyRole.t)
    (stale_cutoff : Z) (r : AccessRow.t) : Prop :=
  is_Some (policy_roles !! AccessRow.role r)
  ∧ AccessRow.status r = "active"
  ∧ ∃ last_login, AccessRow.last_login r = Some last_login
                  ∧ (last_login < stale_cutoff)%Z.

#[global] Instance stale_entry_dec policy_roles stale_cutoff r :
  Decision (stale_entry policy_roles stale_cutoff r).
Proof.
  unfold stale_entry. destruct (AccessRow.last_login r) as [ll|].
  - destruct (decide (is_Some (policy_roles !! AccessRow.role r)
                      ∧ AccessRow.status r = "active"
                      ∧ (ll < stale_cutoff)%Z)) as [H|H].
    + left. destruct H as (? & ? & ?). eauto.
    + right. intros (? & ? & ll' & [= <-] & ?). tauto.
  - right. intros (_ & _ & ll' & [=] & _).
Defined.

(** The condition of the department rule for an entry. *)
Definition department_refused (policy_roles : gmap string PolicyRole.t)
    (r : AccessRow.t) : Prop :=
  ∃ policy,
    policy_roles !! AccessRow.role r = Some policy
    ∧ ("*" ∉ PolicyRole.allowed_departments policy)
    ∧ (AccessRow.department r ∉ PolicyRole.allowed_departments policy).

#[global] Instance department_refused_dec policy_roles r :
  Decision (department_refused policy_roles r).
Proof.
  unfold department_refused.
  destruct (policy_roles !! AccessRow.role r) as [policy|].
  - destruct (decide (("*" ∉ PolicyRole.allowed_departments policy)
                      ∧ (AccessRow.department r
                         ∉ PolicyRole.allowed_departments policy))) as [H|H].
    + left. eauto.
    + right. intros (policy' & [= <-] & ?). tauto.
  - right. intros (policy & [=] & _).
Defined.

(** Two violations that differ at most in their details. *)
Definition same_but_details (v v' : Violation.t) : Prop :=
  Violation.user_id v = Violation.user_id v'
  ∧ Violation.user_name v = Violation.user_name v'
  ∧ Violation.department v = Violation.department v'
  ∧ Violation.role v = Violation.role v'
  ∧ Violation.issue v = Violation.issue v'
  ∧ Violation.severity v = Violation.severity v'.

(** Two violations that are the same, or are both STALE_ACCOUNT
    violations differing at most in the details (the day count). *)
Definition same_but_days (v v' : Violation.t) : Prop :=
  v = v'
  ∨ (Violation.issue v = "STALE_ACCOUNT" ∧ same_but_details v v').

(** * Properties *)

(** ** The loop body, rule by rule *)

Section row_facts.
Variable clock : nat → Z.
Variable policy_roles : gmap string PolicyRole.t.
Variable duplicate_pairs : gset (string * string).
Variable stale_cutoff : Z.
Variable stale_days : Z.

Abbreviation body :=
  (review_row clock policy_roles duplicate_pairs stale_cutoff stale_days).
Abbreviation rv :=
  (row_violations clock policy_roles duplicate_pairs stale_cutoff stale_days).
Abbreviation rt :=
  (row_ticks clock policy_roles duplicate_pairs stale_cutoff stale_days).
Abbreviation parts :=
  (known_role_parts clock duplicate_pairs stale_cutoff stale_days).
Abbreviation stale := (stale_part clock stale_cutoff stale_days).

Lemma review_row_unfold r w :
  body r w =
  (tt, {| violations :=
            violations w ++
            match policy_roles !! AccessRow.role r with
            | None => [unknown_role_violation r]
            | Some policy => parts r policy (ticks w)
            end;
          ticks :=
            match policy_roles !! AccessRow.role r with
            | None => ticks w
            | Some _ => ticks w + length (stale r (ticks w))
            end |}).
Proof.
  destruct w as [vs n].
  unfold review_row, known_role_parts.
  destruct (policy_roles !! AccessRow.role r) as [policy|]; [|reflexivity].
  unfold mbind, St_bind, mret, St_ret, when, append, today.
  unfold department_part, status_part, duplicate_part, stale_part.
  destruct (AccessRow.last_login r) as [ll|];
    repeat case_decide; cbn -[String.append Py.join Py.sorted Py.str_of_int];
    rewrite <- ?app_assoc, ?app_nil_r, ?Nat.add_0_r, ?Nat.add_1_r; reflexivity.
Qed.

Lemma row_violations_eq r n :
  rv r n =
  match policy_roles !! AccessRow.role r with
  | None => [unknown_role_violation r]
  | Some policy => parts r policy n
  end.
Proof.
  unfold row_violations, row_run. rewrite review_row_unfold. reflexivity.
Qed.

Lemma row_ticks_eq r n :
  rt r n =
  match policy_roles !! AccessRow.role r with
  | None => n
  | Some _ => n + length (stale r n)
  end.
Proof.
  unfold row_ticks, row_run. rewrite review_row_unfold. reflexivity.
Qed.

(** The body only appends to [violations]. *)
Lemma review_row_append r w :
  body r w = (tt, {| violations := violations w ++ rv r (ticks w);
                     ticks := rt r (ticks w) |}).
Proof.
  rewrite review_row_unfold, row_violations_eq, row_ticks_eq. reflexivity.
Qed.

Lemma for_each_review_row rows w :
  for_each body rows w =
  (tt, {| violations :=
            violations w
            ++ concat (row_segments clock policy_roles duplicate_pairs
                         stale_cutoff stale_days rows (ticks w));
          ticks := rows_ticks clock policy_roles duplicate_pairs
                     stale_cutoff stale_days rows (ticks w) |}).
Proof.
  revert w. induction rows as [|r rows IH]; intros w.
  - destruct w; simpl. unfold mret, St_ret. rewrite app_nil_r. reflexivity.
  - simpl. unfold mbind, St_bind. rewrite review_row_append.
    rewrite IH. simpl. rewrite app_assoc. reflexivity.
Qed.

(** Membership in each group. *)
Lemma elem_of_department_part r policy v :
  v ∈ department_part r policy ↔
  v = department_violation r policy
  ∧ ("*" ∉ PolicyRole.allowed_departments policy)
  ∧ (AccessRow.department r ∉ PolicyRole.allowed_departments policy).
Proof.
  unfold department_part. case_decide.
  - rewrite list_elem_of_singleton. tauto.
  - rewrite elem_of_nil. tauto.
Qed.

Lemma elem_of_status_part r v :
  v ∈ status_part r ↔
  (v = invalid_status_violation r
   ∧ AccessRow.status r ≠ "active" ∧ AccessRow.status r ≠ "inactive")
  ∨ (v = inactive_violation r ∧ AccessRow.status r = "inactive").
Proof.
  unfold status_part. repeat case_decide;
    rewrite ?list_elem_of_singleton, ?elem_of_nil; set_solver.
Qed.

Lemma elem_of_duplicate_part r v :
  v ∈ duplicate_part duplicate_pairs r ↔
  v = duplicate_violation r
  ∧ (AccessRow.user_id r, AccessRow.role r) ∈ duplicate_pairs.
Proof.
  unfold duplicate_part. case_decide.
  - rewrite list_elem_of_singleton. tauto.
  - rewrite elem_of_nil. tauto.
Qed.

Lemma elem_of_stale_part r n v :
  v ∈ stale r n ↔
  ∃ last_login,
    AccessRow.last_login r = Some last_login
    ∧ v = stale_violation r (clock n) last_login stale_days
    ∧ (last_login < stale_cutoff)%Z ∧ AccessRow.status r = "active".
Proof.
  unfold stale_part. destruct (AccessRow.last_login r) as [ll|].
  - case_decide.
    + rewrite list_elem_of_singleton. split.
      * intros ->. exists ll. tauto.
      * intros (ll' & [= <-] & -> & _). reflexivity.
    + rewrite elem_of_nil. split; [tauto|].
      intros (ll' & [= <-] & _ & ? & ?). tauto.
  - rewrite elem_of_nil. split; [tauto|]. intros (ll' & [=] & _).
Qed.

Lemma elem_of_known_role_parts r policy n v :
  v ∈ parts r policy n ↔
  v ∈ department_part r policy ∨ v ∈ status_part r
  ∨ v ∈ duplicate_part duplicate_pairs r ∨ v ∈ stale r n.
Proof. unfold known_role_parts. rewrite !elem_of_app. tauto. Qed.

Lemma length_department_part r policy : length (department_part r policy) ≤ 1.
Proof. unfold department_part. case_decide; simpl; lia. Qed.

Lemma length_status_part r : length (status_part r) ≤ 1.
Proof. unfold status_part. repeat case_decide; simpl; lia. Qed.

Lemma length_duplicate_part r : length (duplicate_part duplicate_pairs r) ≤ 1.
Proof. unfold duplicate_part. case_decide; simpl; lia. Qed.

Lemma length_stale_part r n : length (stale r n) ≤ 1.
Proof.
  unfold stale_part. destruct (AccessRow.last_login r); [|simpl; lia].
  case_decide; simpl; lia.
Qed.
End row_facts.

Lemma fires_nil i : fires i [] ↔ False.
Proof.
  unfold fires. split; [|tauto].
  intros (v & Hv & _). inversion Hv.
Qed.

Lemma fires_cons i v vs : fires i (v :: vs) ↔ Violation.issue v = i ∨ fires i vs.
Proof.
  unfold fires. split.
  - intros (x & Hx & Hi). apply elem_of_cons in Hx as [->|Hx]; eauto.
  - intros [Hi|(x & Hx & Hi)].
    + exists v. split; [left|exact Hi].
    + exists x. split; [right; exact Hx|exact Hi].
Qed.

Lemma fires_app i vs1 vs2 : fires i (vs1 ++ vs2) ↔ fires i vs1 ∨ fires i vs2.
Proof.
  induction vs1 as [|v vs1 IH]; simpl.
  - rewrite fires_nil. tauto.
  - rewrite !fires_cons, IH. tauto.
Qed.

Lemma review_access_unfold clock rows policy_roles stale_days t0 :
  review_access clock rows policy_roles stale_days t0 =
  match cutoff_of (clock t0) stale_days with
  | Raise e => (Raise e, S t0)
  | Ok stale_cutoff =>
      (Ok (concat (row_segments clock policy_roles (find_duplicates rows)
                     stale_cutoff stale_days rows (S t0))),
       rows_ticks clock policy_roles (find_duplicates rows)
         stale_cutoff stale_days rows (S t0))
  end.
Proof.
  unfold review_access, cutoff_of, today; simpl.
  destruct (result_bind _ _) as [cutoff|e]; [|reflexivity].
  rewrite for_each_review_row. reflexivity.
Qed.

Lemma cutoff_of_Ok now stale_days cutoff :
  cutoff_of now stale_days = Ok cutoff →
  cutoff = (now - stale_days * Py.us_per_day)%Z.
Proof.
  unfold cutoff_of, Py.timedelta_days, Py.datetime_sub, result_bind.
  repeat case_decide; congruence.
Qed.

(** Which rules fire for one entry, read off the loop body. *)
Lemma fires_row_violations clock (policy_roles : gmap string PolicyRole.t)
    duplicate_pairs stale_cutoff stale_days (r : AccessRow.t) (n : nat) i :
  fires i (row_violations clock policy_roles duplicate_pairs
             stale_cutoff stale_days r n)
  ↔ match policy_roles !! AccessRow.role r with
    | None => i = "UNKNOWN_ROLE"
    | Some policy =>
        (i = "ROLE_NOT_ALLOWED_FOR_DEPARTMENT"
         ∧ ("*" ∉ PolicyRole.allowed_departments policy)
         ∧ (AccessRow.department r ∉ PolicyRole.allowed_departments policy))
        ∨ (i = "INVALID_STATUS"
           ∧ AccessRow.status r ≠ "active" ∧ AccessRow.status r ≠ "inactive")
        ∨ (i = "INACTIVE_USER_HAS_ACCESS" ∧ AccessRow.status r = "inactive")
        ∨ (i = "DUPLICATE_USER_ROLE_ENTRY"
           ∧ (AccessRow.user_id r, AccessRow.role r) ∈ duplicate_pairs)
        ∨ (i = "STALE_ACCOUNT"
           ∧ ∃ last_login, AccessRow.last_login r = Some last_login
                           ∧ (last_login < stale_cutoff)%Z
                           ∧ AccessRow.status r = "active")
    end.
Proof.
  unfold fires. rewrite row_violations_eq.
  destruct (policy_roles !! AccessRow.role r) as [policy|].
  - setoid_rewrite elem_of_known_role_parts.
    setoid_rewrite elem_of_department_part.
    setoid_rewrite elem_of_status_part.
    setoid_rewrite elem_of_duplicate_part.
    setoid_rewrite elem_of_stale_part.
    split.
    + intros (v & Hv & <-).
      destruct Hv as [(-> & ?)|[[(-> & ?)|(-> & ?)]|[(-> & ?)|(ll & ? & -> & ?)]]];
        cbn [Violation.issue department_violation invalid_status_violation
             inactive_violation duplicate_violation stale_violation violation_of];
        eauto 10.
    + intros [(-> & ?)|[(-> & ?)|[(-> & ?)|[(-> & ?)|(-> & ll & ? & ?)]]]].
      * exists (department_violation r policy). eauto 10.
      * exists (invalid_status_violation r). eauto 10.
      * exists (inactive_violation r). eauto 10.
      * exists (duplicate_violation r). eauto 10.
      * exists (stale_violation r (clock n) ll stale_days). eauto 10.
  - setoid_rewrite list_elem_of_singleton. split.
    + intros (v & -> & <-). reflexivity.
    + intros ->. eexists. split; reflexivity.
Qed.

(** A violation reported for an entry has the severity of its rule. *)
Lemma severity_row_violations clock (policy_roles : gmap string PolicyRole.t)
    duplicate_pairs stale_cutoff stale_days (r : AccessRow.t) (n : nat) v :
  v ∈ row_violations clock policy_roles duplicate_pairs stale_cutoff stale_days r n →
  (Violation.issue v, Violation.severity v)
  ∈ [("UNKNOWN_ROLE", "HIGH"); ("ROLE_NOT_ALLOWED_FOR_DEPARTMENT", "HIGH");
     ("INVALID_STATUS", "MEDIUM"); ("INACTIVE_USER_HAS_ACCESS", "HIGH");
     ("DUPLICATE_USER_ROLE_ENTRY", "LOW"); ("STALE_ACCOUNT", "LOW")].
Proof.
  rewrite row_violations_eq.
  destruct (policy_roles !! AccessRow.role r) as [policy|].
  - rewrite elem_of_known_role_parts, elem_of_department_part,
      elem_of_status_part, elem_of_duplicate_part, elem_of_stale_part.
    intros [(-> & ?)|[[(-> & ?)|(-> & ?)]|[(-> & ?)|(ll & ? & -> & ?)]]];
      cbn [Violation.issue Violation.severity department_violation
           invalid_status_violation inactive_violation duplicate_violation
           stale_violation violation_of];
      rewrite !elem_of_cons; tauto.
  - rewrite list_elem_of_singleton. intros ->. left.
Qed.

(** ** End-to-end examples *)

Example analyst_in_sales :
  fst (review_access (λ _, day 738000)
         [AccessRow.mk "U1" "Ann" "sales" "analyst" "active" (Some (day 738000))]
         example_catalog 90 0)
  = Ok [Violation.mk "U1" "Ann" "sales" "analyst"
          "ROLE_NOT_ALLOWED_FOR_DEPARTMENT" "HIGH"
          "Role 'analyst' allowed only for departments: finance, ops"].
Proof. vm_compute. reflexivity. Qed.

Example ghost_role :
  fst (review_access (λ _, day 738000)
         [AccessRow.mk "U2" "Bob" "finance" "ghost" "active" None]
         example_catalog 90 0)
  = Ok [Violation.mk "U2" "Bob" "finance" "ghost" "UNKNOWN_ROLE" "HIGH"
          "Role not found in policy catalog."].
Proof. vm_compute. reflexivity. Qed.

Example viewer_twice :
  let r := AccessRow.mk "U3" "Cy" "ops" "viewer" "active" (Some (day 737999)) in
  fst (review_access (λ _, day 738000) [r; r] example_catalog 90 0)
  = Ok [Violation.mk "U3" "Cy" "ops" "viewer" "DUPLICATE_USER_ROLE_ENTRY" "LOW"
          "Duplicate user-role assignment found.";
        Violation.mk "U3" "Cy" "ops" "viewer" "DUPLICATE_USER_ROLE_ENTRY" "LOW"
          "Duplicate user-role assignment found."].
Proof. vm_compute. reflexivity. Qed.

Example suspended_status :
  fst (review_access (λ _, day 738000)
         [AccessRow.mk "U4" "Eve" "ops" "viewer" "suspended" None]
         example_catalog 90 0)
  = Ok [Violation.mk "U4" "Eve" "ops" "viewer" "INVALID_STATUS" "MEDIUM"
          "Status must be 'active' or 'inactive' (got 'suspended')."].
Proof. vm_compute. reflexivity. Qed.

Example stale_days_out_of_range :
  review_access (λ _, day 738000) [] example_catalog 1000000000 0
  = (Raise OverflowError, 1).
Proof. vm_compute. reflexivity. Qed.

(** ** Properties of single entries *)

(** The [i]-th per-entry list of a batch is the list of its [i]-th entry. *)
Lemma row_segments_lookup
    clock (policy_roles : gmap string PolicyRole.t) duplicate_pairs
    stale_cutoff stale_days (rows : list AccessRow.t) :
  ∀ i n r, rows !! i = Some r →
    ∃ m, row_segments clock policy_roles duplicate_pairs
           stale_cutoff stale_days rows n !! i
         = Some (row_violations clock policy_roles duplicate_pairs
                   stale_cutoff stale_days r m).
Proof.
  induction rows as [|r0 rows IH]; intros i n r Hi; [discriminate|].
  destruct i as [|i]; cbn [row_segments].
  - injection Hi as ->. exists n. reflexivity.
  - apply IH. exact Hi.
Qed.

(** C5 as stated fails: an entry with status ["inactive"] whose role is
    not in the catalog gets UNKNOWN_ROLE only. *)
Lemma inactive_unknown_role_counterexample :
  let r := AccessRow.mk "U2" "Bob" "finance" "ghost" "inactive" None in
  let vs := row_violations (λ _, 0%Z) ∅ ∅ 0 90 r 0 in
  vs = [unknown_role_violation r]
  ∧ ¬ (fires "INACTIVE_USER_HAS_ACCESS" vs ↔ AccessRow.status r = "inactive").
Proof.
  intros r vs. split; [reflexivity|].
  intros [_ Hfire]. specialize (Hfire eq_refl).
  apply fires_row_violations in Hfire. discriminate Hfire.
Qed.

(** The status rules and the staleness rule exclude each other, so an
    entry never gets more than three violations. *)
Lemma row_violations_at_most_three
    clock (policy_roles : gmap string PolicyRole.t) duplicate_pairs
    stale_cutoff stale_days (r : AccessRow.t) (n : nat) :
  length (row_violations clock policy_roles duplicate_pairs
            stale_cutoff stale_days r n) ≤ 3.
Proof.
  rewrite row_violations_eq.
  destruct (policy_roles !! AccessRow.role r) as [policy|]; [|simpl; lia].
  unfold known_role_parts. rewrite !length_app.
  pose proof (length_department_part r policy).
  pose proof (length_duplicate_part duplicate_pairs r).
  assert (length (status_part r)
          + length (stale_part clock stale_cutoff stale_days r n) ≤ 1); [|lia].
  unfold status_part, stale_part.
  destruct (AccessRow.last_login r) as [ll|];
    repeat case_decide; simpl; try lia; destruct_and?.
  - exfalso. set_solver.
  - congruence.
Qed.

Lemma fires_of_length_department_part r policy :
  length (department_part r policy) = 1 →
  fires "ROLE_NOT_ALLOWED_FOR_DEPARTMENT" (department_part r policy).
Proof.
  unfold department_part. case_decide; [|discriminate].
  intros _. apply fires_cons. left. reflexivity.
Qed.

Lemma fires_of_length_status_part r :
  length (status_part r) = 1 →
  fires "INVALID_STATUS" (status_part r)
  ∨ fires "INACTIVE_USER_HAS_ACCESS" (status_part r).
Proof.
  unfold status_part. repeat case_decide; try discriminate; intros _.
  - left. apply fires_cons. left. reflexivity.
  - right. apply fires_cons. left. reflexivity.
Qed.

Lemma fires_of_length_duplicate_part duplicate_pairs r :
  length (duplicate_part duplicate_pairs r) = 1 →
  fires "DUPLICATE_USER_ROLE_ENTRY" (duplicate_part duplicate_pairs r).
Proof.
  unfold duplicate_part. case_decide; [|discriminate].
  intros _. apply fires_cons. left. reflexivity.
Qed.

Lemma fires_of_length_stale_part clock stale_cutoff stale_days r n :
  length (stale_part clock stale_cutoff stale_days r n) = 1 →
  fires "STALE_ACCOUNT" (stale_part clock stale_cutoff stale_days r n).
Proof.
  unfold stale_part. destruct (AccessRow.last_login r); [|discriminate].
  case_decide; [|discriminate].
  intros _. apply fires_cons. left. reflexivity.
Qed.

(** C10. One entry yields at most four violations; exactly one when its
    role is not a key of the catalog; and four only if the department
    rule, one of the two status rules, the duplicate rule and the staleness
    rule all fire. *)
Theorem row_violation_count
    clock (policy_roles : gmap string PolicyRole.t) duplicate_pairs
    stale_cutoff stale_days (r : AccessRow.t) (n : nat) :
  let vs := row_violations clock policy_roles duplicate_pairs
              stale_cutoff stale_days r n in
  length vs ≤ 4
  ∧ (policy_roles !! AccessRow.role r = None → length vs = 1)
  ∧ (length vs = 4 →
     fires "ROLE_NOT_ALLOWED_FOR_DEPARTMENT" vs
     ∧ (fires "INVALID_STATUS" vs ∨ fires "INACTIVE_USER_HAS_ACCESS" vs)
     ∧ fires "DUPLICATE_USER_ROLE_ENTRY" vs
     ∧ fires "STALE_ACCOUNT" vs).
Proof.
  intros vs. subst vs. rewrite row_violations_eq.
  destruct (policy_roles !! AccessRow.role r) as [policy|].
  - unfold known_role_parts. rewrite !length_app.
    pose proof (length_department_part r policy) as Hd.
    pose proof (length_status_part r) as Hs.
    pose proof (length_duplicate_part duplicate_pairs r) as Hp.
    pose proof (length_stale_part clock stale_cutoff stale_days r n) as Ht.
    split; [lia|]. split; [discriminate|].
    intros Hfour. rewrite !fires_app.
    split; [|split; [|split]].
    + left. apply fires_of_length_department_part. lia.
    + destruct (fires_of_length_status_part r) as [?|?]; [lia| |]; tauto.
    + right. right. left. apply fires_of_length_duplicate_part. lia.
    + right. right. right. apply fires_of_length_stale_part. lia.
  - split; [simpl; lia|]. split; [reflexivity|]. simpl. discriminate.
Qed.

(** ** Properties of a whole batch *)

Lemma about_row_violations
    clock (policy_roles : gmap string PolicyRole.t) duplicate_pairs
    stale_cutoff stale_days (r : AccessRow.t) (n : nat) v :
  v ∈ row_violations clock policy_roles duplicate_pairs stale_cutoff stale_days r n →
  about r v.
Proof.
  rewrite row_violations_eq.
  destruct (policy_roles !! AccessRow.role r) as [policy|].
  - rewrite elem_of_known_role_parts, elem_of_department_part,
      elem_of_status_part, elem_of_duplicate_part, elem_of_stale_part.
    intros [(-> & ?)|[[(-> & ?)|(-> & ?)]|[(-> & ?)|(ll & ? & -> & ?)]]];
      repeat split.
  - rewrite list_elem_of_singleton. intros ->. repeat split.
Qed.

Lemma rule_order_row_violations
    clock (policy_roles : gmap string PolicyRole.t) duplicate_pairs
    stale_cutoff stale_days (r : AccessRow.t) (n : nat) :
  sublist
    (Violation.issue <$> row_violations clock policy_roles duplicate_pairs
                           stale_cutoff stale_days r n)
    rule_order.
Proof.
  rewrite row_violations_eq.
  destruct (policy_roles !! AccessRow.role r) as [policy|].
  - unfold known_role_parts. rewrite !fmap_app.
    change rule_order with
      (["UNKNOWN_ROLE"] ++ ["ROLE_NOT_ALLOWED_FOR_DEPARTMENT"]
       ++ ["INVALID_STATUS"; "INACTIVE_USER_HAS_ACCESS"]
       ++ ["DUPLICATE_USER_ROLE_ENTRY"] ++ ["STALE_ACCOUNT"]).
    apply (sublist_app []); [apply sublist_nil_l|].
    repeat apply sublist_app.
    + unfold department_part. case_decide; [reflexivity|apply sublist_nil_l].
    + unfold status_part. repeat case_decide.
      * apply sublist_skip, sublist_nil_l.
      * apply sublist_cons, sublist_skip, sublist_nil_l.
      * apply sublist_nil_l.
    + unfold duplicate_part. case_decide; [reflexivity|apply sublist_nil_l].
    + unfold stale_part. destruct (AccessRow.last_login r); [|apply sublist_nil_l].
      case_decide; [reflexivity|apply sublist_nil_l].
  - apply sublist_skip, sublist_nil_l.
Qed.

(** C6. When the cutoff can be computed the review returns the
    concatenation, in input order, of the violation lists of the entries
    (and it raises otherwise); every violation in an entry's list copies
    that entry, and the issues in it follow the fixed rule order
    UNKNOWN_ROLE, ROLE_NOT_ALLOWED_FOR_DEPARTMENT, INVALID_STATUS,
    INACTIVE_USER_HAS_ACCESS, DUPLICATE_USER_ROLE_ENTRY, STALE_ACCOUNT. *)
Theorem review_access_order clock (rows : list AccessRow.t)
    (policy_roles : gmap string PolicyRole.t) stale_days t0 :
  fst (review_access clock rows policy_roles stale_days t0)
  = (let* stale_cutoff := cutoff_of (clock t0) stale_days in
     Ok (concat (row_segments clock policy_roles (find_duplicates rows)
                   stale_cutoff stale_days rows (S t0))))
  ∧ ∀ duplicate_pairs stale_cutoff n,
      Forall2 (λ r seg, (∀ v, v ∈ seg → about r v)
                        ∧ sublist (Violation.issue <$> seg) rule_order)
        rows
        (row_segments clock policy_roles duplicate_pairs
           stale_cutoff stale_days rows n).
Proof.
  split.
  - rewrite review_access_unfold.
    destruct (cutoff_of (clock t0) stale_days); reflexivity.
  - intros duplicate_pairs stale_cutoff.
    induction rows as [|r rows IH]; intros n; simpl; constructor.
    + split.
      * intros v. apply about_row_violations.
      * apply rule_order_row_violations.
    + apply IH.
Qed.

(** *** The duplicate detector *)

Lemma pair_count_cons p r rows :
  pair_count p (r :: rows)
  = (if decide ((AccessRow.user_id r, AccessRow.role r) = p) then 1 else 0)
    + pair_count p rows.
Proof.
  unfold pair_count. rewrite filter_cons. case_decide; reflexivity.
Qed.

(** The loop invariant of [find_duplicates], started from any [seen] and
    [dups]. *)
Lemma find_duplicates_fold rows seen dups p :
  p ∈ snd (fold_left find_duplicates_step rows (seen, dups))
  ↔ p ∈ dups ∨ (p ∈ seen ∧ 1 ≤ pair_count p rows) ∨ 2 ≤ pair_count p rows.
Proof.
  revert seen dups. induction rows as [|r rows IH]; intros seen dups.
  - simpl. unfold pair_count. simpl. intuition lia.
  - cbn [fold_left]. unfold find_duplicates_step at 2.
    rewrite pair_count_cons. case_decide as Hseen; rewrite IH; clear IH.
    + case_decide as Hkey.
      * subst p. rewrite elem_of_union, elem_of_singleton. intuition lia.
      * rewrite elem_of_union, elem_of_singleton. intuition (try congruence; lia).
    + case_decide as Hkey.
      * subst p. rewrite elem_of_union, elem_of_singleton. intuition lia.
      * rewrite elem_of_union, elem_of_singleton. intuition (try congruence; lia).
Qed.

Lemma elem_of_find_duplicates rows p :
  p ∈ find_duplicates rows ↔ 2 ≤ pair_count p rows.
Proof.
  unfold find_duplicates. rewrite find_duplicates_fold.
  rewrite !elem_of_empty. tauto.
Qed.

Lemma pair_count_Permutation p rows rows' :
  rows ≡ₚ rows' → pair_count p rows = pair_count p rows'.
Proof. intros Hperm. unfold pair_count. rewrite Hperm. reflexivity. Qed.

Lemma find_duplicates_Permutation rows rows' :
  rows ≡ₚ rows' → find_duplicates rows' = find_duplicates rows.
Proof.
  intros Hperm. apply set_eq. intros p.
  rewrite !elem_of_find_duplicates, (pair_count_Permutation p _ _ Hperm).
  reflexivity.
Qed.

(** *** Counting DUPLICATE_USER_ROLE_ENTRY violations *)

Lemma duplicate_violations_app p vs1 vs2 :
  duplicate_violations p (vs1 ++ vs2)
  = duplicate_violations p vs1 + duplicate_violations p vs2.
Proof. unfold duplicate_violations. rewrite filter_app, length_app. reflexivity. Qed.

Lemma duplicate_violations_other p vs :
  ¬ fires "DUPLICATE_USER_ROLE_ENTRY" vs → duplicate_violations p vs = 0.
Proof.
  unfold duplicate_violations. induction vs as [|v vs IH]; intros Hno.
  - reflexivity.
  - rewrite fires_cons in Hno. rewrite filter_cons.
    case_decide as Hv; [exfalso; tauto|]. apply IH. tauto.
Qed.

Lemma duplicate_violations_row
    clock (policy_roles : gmap string PolicyRole.t) duplicate_pairs
    stale_cutoff stale_days (r : AccessRow.t) (n : nat) p :
  duplicate_violations p
    (row_violations clock policy_roles duplicate_pairs stale_cutoff stale_days r n)
  = if decide (is_Some (policy_roles !! AccessRow.role r)
               ∧ (AccessRow.user_id r, AccessRow.role r) ∈ duplicate_pairs
               ∧ (AccessRow.user_id r, AccessRow.role r) = p)
    then 1 else 0.
Proof.
  rewrite row_violations_eq.
  destruct (policy_roles !! AccessRow.role r) as [policy|] eqn:Hrole.
  - unfold known_role_parts. rewrite !duplicate_violations_app.
    rewrite (duplicate_violations_other p (department_part r policy)),
      (duplicate_violations_other p (status_part r)),
      (duplicate_violations_other p (stale_part _ _ _ r n)).
    + unfold duplicate_part, duplicate_violations.
      case_decide as Hdup.
      * rewrite filter_cons, filter_nil.
        cbn [Violation.issue Violation.user_id Violation.role
             duplicate_violation violation_of].
        repeat case_decide; simpl; try reflexivity; exfalso; naive_solver.
      * rewrite filter_nil. case_decide; [exfalso; tauto|reflexivity].
    + intros (v & Hv & Hi). apply elem_of_stale_part in Hv as (ll & _ & -> & _).
      discriminate Hi.
    + intros (v & Hv & Hi).
      apply elem_of_status_part in Hv as [(-> & _)|(-> & _)]; discriminate Hi.
    + intros (v & Hv & Hi). apply elem_of_department_part in Hv as (-> & _).
      discriminate Hi.
  - case_decide as Hc; [destruct Hc as ([? [=]] & _)|].
    apply duplicate_violations_other.
    rewrite fires_cons, fires_nil. intros [[=]|[]].
Qed.

Lemma duplicate_violations_segments
    clock (policy_roles : gmap string PolicyRole.t) duplicate_pairs
    stale_cutoff stale_days (rows : list AccessRow.t) (n : nat) p :
  duplicate_violations p
    (concat (row_segments clock policy_roles duplicate_pairs
               stale_cutoff stale_days rows n))
  = if decide (is_Some (policy_roles !! p.2) ∧ p ∈ duplicate_pairs)
    then pair_count p rows else 0.
Proof.
  revert n. induction rows as [|r rows IH]; intros n.
  - simpl. case_decide; reflexivity.
  - cbn [row_segments concat].
    rewrite duplicate_violations_app, duplicate_violations_row, IH.
    rewrite pair_count_cons.
    destruct (decide ((AccessRow.user_id r, AccessRow.role r) = p)) as [<-|Hne];
      cbn [snd]; repeat case_decide; try reflexivity; exfalso; tauto.
Qed.

(** C4. In a review that returns, a [(user_id, role)] pair whose role is a
    key of the catalog and which occurs [k] times in the batch gets [k]
    DUPLICATE_USER_ROLE_ENTRY violations when [k ≥ 2] and none when
    [k = 1].  The set computed by [find_duplicates] is the set of pairs
    occurring at least twice; it does not change when the batch is
    reordered, and it is empty for the empty batch. *)
Theorem duplicate_entries_counted clock (rows : list AccessRow.t)
    (policy_roles : gmap string PolicyRole.t) stale_days t0 vs
    (user_id role : string) :
  fst (review_access clock rows policy_roles stale_days t0) = Ok vs →
  is_Some (policy_roles !! role) →
  let k := pair_count (user_id, role) rows in
  (2 ≤ k → duplicate_violations (user_id, role) vs = k)
  ∧ (k = 1 → duplicate_violations (user_id, role) vs = 0)
  ∧ (∀ p, p ∈ find_duplicates rows ↔ 2 ≤ pair_count p rows)
  ∧ (∀ rows', rows ≡ₚ rows' → find_duplicates rows' = find_duplicates rows)
  ∧ find_duplicates [] = ∅.
Proof.
  intros Hrun Hrole k. subst k.
  rewrite review_access_unfold in Hrun.
  destruct (cutoff_of (clock t0) stale_days) as [cutoff|e]; [|discriminate].
  injection Hrun as <-.
  rewrite duplicate_violations_segments. cbn [snd].
  split; [|split; [|split; [|split]]].
  - intros Hk. rewrite decide_True; [reflexivity|].
    split; [assumption|]. apply elem_of_find_duplicates. assumption.
  - intros Hk. rewrite decide_False; [reflexivity|].
    intros [_ Hin]. apply elem_of_find_duplicates in Hin. lia.
  - intros p. apply elem_of_find_duplicates.
  - apply find_duplicates_Permutation.
  - reflexivity.
Qed.

Lemma duplicate_entries_counted_witness :
  let r1 := AccessRow.mk "U3" "Cy" "ops" "viewer" "active" None in
  let r2 := AccessRow.mk "U3" "Cy" "sales" "viewer" "active" None in
  duplicate_violations ("U3", "viewer")
    [duplicate_violation r1; duplicate_violation r2] = 2.
Proof.
  intros r1 r2.
  refine (proj1 (duplicate_entries_counted
                   (λ _, 738000 * Py.us_per_day)%Z [r1; r2]
                   {["viewer" := PolicyRole.mk "viewer" {["*"]} ""]} 90 0
                   [duplicate_violation r1; duplicate_violation r2]
                   "U3" "viewer" _ _) _).
  - vm_compute. reflexivity.
  - exists (PolicyRole.mk "viewer" {["*"]} ""). vm_compute. reflexivity.
  - vm_compute. lia.
Defined.

(** *** Clock readings *)

Lemma stale_violations_app vs1 vs2 :
  stale_violations (vs1 ++ vs2) = stale_violations vs1 + stale_violations vs2.
Proof. unfold stale_violations. rewrite filter_app, length_app. reflexivity. Qed.

Lemma stale_violations_other vs :
  ¬ fires "STALE_ACCOUNT" vs → stale_violations vs = 0.
Proof.
  unfold stale_violations. induction vs as [|v vs IH]; intros Hno.
  - reflexivity.
  - rewrite fires_cons in Hno. rewrite filter_cons.
    case_decide as Hv; [exfalso; tauto|]. apply IH. tauto.
Qed.

(** The body reads the clock once for each STALE_ACCOUNT violation. *)
Lemma row_ticks_stale
    clock (policy_roles : gmap string PolicyRole.t) duplicate_pairs
    stale_cutoff stale_days (r : AccessRow.t) (n : nat) :
  row_ticks clock policy_roles duplicate_pairs stale_cutoff stale_days r n
  = n + stale_violations
          (row_violations clock policy_roles duplicate_pairs
             stale_cutoff stale_days r n).
Proof.
  rewrite row_ticks_eq, row_violations_eq.
  destruct (policy_roles !! AccessRow.role r) as [policy|].
  - unfold known_role_parts. rewrite !stale_violations_app.
    rewrite (stale_violations_other (department_part r policy)),
      (stale_violations_other (status_part r)),
      (stale_violations_other (duplicate_part _ r)).
    + f_equal. unfold stale_part.
      destruct (AccessRow.last_login r); [|reflexivity].
      case_decide; reflexivity.
    + intros (v & Hv & Hi). apply elem_of_duplicate_part in Hv as (-> & _).
      discriminate Hi.
    + intros (v & Hv & Hi).
      apply elem_of_status_part in Hv as [(-> & _)|(-> & _)]; discriminate Hi.
    + intros (v & Hv & Hi). apply elem_of_department_part in Hv as (-> & _).
      discriminate Hi.
  - rewrite stale_violations_other; [lia|].
    rewrite fires_cons, fires_nil. intros [[=]|[]].
Qed.

Lemma rows_ticks_stale
    clock (policy_roles : gmap string PolicyRole.t) duplicate_pairs
    stale_cutoff stale_days (rows : list AccessRow.t) (n : nat) :
  rows_ticks clock policy_roles duplicate_pairs stale_cutoff stale_days rows n
  = n + stale_violations
          (concat (row_segments clock policy_roles duplicate_pairs
                     stale_cutoff stale_days rows n)).
Proof.
  revert n. induction rows as [|r rows IH]; intros n.
  - simpl. unfold stale_violations. simpl. lia.
  - cbn [rows_ticks row_segments concat].
    rewrite stale_violations_app, IH, row_ticks_stale. lia.
Qed.

(** With a clock that always shows [now], the violations of a row do not
    depend on how often the clock has been read. *)
Lemma row_segments_frozen
    (policy_roles : gmap string PolicyRole.t) duplicate_pairs
    stale_cutoff stale_days (rows : list AccessRow.t) now :
  ∀ clock n, (∀ k, clock k = now) →
    row_segments clock policy_roles duplicate_pairs stale_cutoff stale_days rows n
    = row_segments (λ _, now) policy_roles duplicate_pairs
        stale_cutoff stale_days rows 0.
Proof.
  induction rows as [|r rows IH]; intros clock n Hfrozen; [reflexivity|].
  cbn [row_segments]. f_equal.
  - rewrite !row_violations_eq.
    destruct (policy_roles !! AccessRow.role r); [|reflexivity].
    unfold known_role_parts, stale_part. rewrite Hfrozen. reflexivity.
  - rewrite (IH clock _ Hfrozen). symmetry. apply IH. reflexivity.
Qed.

(** C7 as stated fails.  The clock is read again for the day count of
    every STALE_ACCOUNT violation: below, two consecutive runs start from
    the same reference reading (one microsecond before midnight) and
    report different day counts, and the first run reads the clock twice. *)
Lemma review_access_clock_counterexample :
  let day := Py.us_per_day in
  let clock := λ n : nat,
    if decide (n = 3) then (738001 * day)%Z else (738000 * day + 86399999999)%Z in
  let r := AccessRow.mk "U7" "Dee" "ops" "viewer" "active" (Some (737000 * day)%Z) in
  let policy_roles : gmap string PolicyRole.t :=
    {["viewer" := PolicyRole.mk "viewer" {["*"]} ""]} in
  let run1 := review_access clock [r] policy_roles 90 0 in
  let run2 := review_access clock [r] policy_roles 90 (snd run1) in
  snd run1 = 2
  ∧ clock 0 = clock (snd run1)
  ∧ fst run1 = Ok [violation_of r "STALE_ACCOUNT" "LOW"
                     "Last login 1000 days ago; threshold is 90 days."]
  ∧ fst run2 = Ok [violation_of r "STALE_ACCOUNT" "LOW"
                     "Last login 1001 days ago; threshold is 90 days."]
  ∧ fst run1 ≠ fst run2.
Proof.
  vm_compute. repeat split. intros [=].
Qed.

(** ** The policy loader *)

Lemma read_policy_rows_lookup path reader :
  ∀ i roles roles',
    read_policy_rows path i reader roles = Ok roles' →
    ∀ role p, roles' !! role = Some p →
      roles !! role = Some p ∨ ∃ row, row ∈ reader ∧ loaded_from row role p.
Proof.
  induction reader as [|row reader IH]; intros i roles roles'.
  - intros [= <-] role p Hp. left. exact Hp.
  - cbn [read_policy_rows]. unfold Py.getitem.
    destruct (row !! "role") as [role_raw|] eqn:Hraw; [|discriminate].
    cbn [result_bind].
    destruct (decide (Py.strip (Py.or_empty role_raw) = "")) as [|Hrole];
      [discriminate|].
    destruct (decide (Py.strip (Py.or_empty (Py.get row "department_allowed")) = ""))
      as [|Hdep]; [discriminate|].
    intros Hrest role p Hp.
    destruct (IH _ _ _ Hrest role p Hp) as [Hold|(row' & Hin & Hfrom)].
    + rewrite lookup_insert in Hold. case_decide as Heq.
      * right. exists row. split; [left|].
        exists role_raw. injection Hold as <-. subst role. auto.
      * left. exact Hold.
    + right. exists row'. split; [right; exact Hin|exact Hfrom].
Qed.

(** Every entry of a loaded catalog comes from a row of the file. *)
Lemma read_policy_roles_lookup path fieldnames reader roles role p :
  read_policy_roles path fieldnames reader = Ok roles →
  roles !! role = Some p →
  ∃ row, row ∈ reader ∧ loaded_from row role p.
Proof.
  unfold read_policy_roles. case_decide; [|discriminate].
  intros Hload Hp.
  destruct (read_policy_rows_lookup _ _ _ _ _ Hload role p Hp) as [Hempty|Hrow].
  - rewrite lookup_empty in Hempty. discriminate.
  - exact Hrow.
Qed.

(** A row whose [department_allowed] is empty after stripping aborts the
    load. *)
Lemma read_policy_rows_empty_spec path i row reader roles role_raw :
  row !! "role" = Some role_raw →
  Py.strip (Py.or_empty role_raw) ≠ "" →
  Py.strip (Py.or_empty (Py.get row "department_allowed")) = "" →
  read_policy_rows path i (row :: reader) roles
  = Raise (ValueError (path +:+ ": line " +:+ Py.str_of_int (Z.of_nat i)
                       +:+ ": department_allowed is empty")).
Proof.
  intros Hraw Hrole Hdep. cbn [read_policy_rows]. unfold Py.getitem.
  rewrite Hraw. cbn [result_bind].
  rewrite decide_False by assumption. rewrite decide_True by assumption.
  reflexivity.
Qed.

(** C9 fails on the code: the specification [","] is not empty, so the
    load succeeds, and the catalog entry it produces has an empty set of
    allowed departments. *)
Theorem empty_allowed_set_loaded :
  read_policy_roles "policy_roles.csv" policy_columns
    [policy_row "analyst" "," "Analyst"]
  = Ok {["analyst" := PolicyRole.mk "analyst" ∅ "Analyst"]}.
Proof. vm_compute. reflexivity. Qed.

(** C8 as stated fails: the list ["finance,*"] names ["*"] among other
    departments, and an entry of department ["sales"], which is not in the
    list, passes the department check. *)
Lemma star_in_list_counterexample :
  let policy_roles : gmap string PolicyRole.t :=
    {["analyst" := PolicyRole.mk "analyst" {["finance"; "*"]} ""]} in
  let r := AccessRow.mk "U1" "Ann" "sales" "analyst" "active" None in
  read_policy_roles "policy_roles.csv" policy_columns
    [policy_row "analyst" "finance,*" ""] = Ok policy_roles
  ∧ (AccessRow.department r ∉ ({["finance"]} : gset string))
  ∧ ¬ fires "ROLE_NOT_ALLOWED_FOR_DEPARTMENT"
        (row_violations (λ _, 0%Z) policy_roles ∅ 0 90 r 0).
Proof.
  intros policy_roles r. split; [vm_compute; reflexivity|].
  split; [set_solver|].
  rewrite fires_row_violations.
  replace (policy_roles !! AccessRow.role r)
    with (Some (PolicyRole.mk "analyst" {["finance"; "*"]} ""))
    by (vm_compute; reflexivity).
  intros [(_ & Hstar & _)|[(? & _)|[(? & _)|[(? & _)|(? & _)]]]];
    try discriminate.
  apply Hstar. cbn. set_solver.
Qed.

Lemma elem_of_allowed_departments_of dep_raw d :
  d ∈ allowed_departments_of dep_raw
  ↔ if decide (dep_raw = "*") then d = "*"
    else d ≠ "" ∧ d ∈ Py.strip <$> Py.split "," dep_raw.
Proof.
  unfold allowed_departments_of. case_decide.
  - apply elem_of_singleton.
  - rewrite elem_of_list_to_set, list_elem_of_filter. tauto.
Qed.

(** C8, amended. The sentinel is the set member ["*"] itself.  Every
    entry of a loaded catalog stores [{"*"}] for the specification ["*"]
    and otherwise the non-empty stripped names of the comma-separated
    list, so a list that names ["*"] yields a set containing ["*"]; and for
    a policy whose set contains ["*"] the department rule never fires,
    whatever the entry's department. *)
Theorem star_member_allows_all path fieldnames reader
    (policy_roles : gmap string PolicyRole.t) (r : AccessRow.t)
    (policy : PolicyRole.t) :
  read_policy_roles path fieldnames reader = Ok policy_roles →
  policy_roles !! AccessRow.role r = Some policy →
  (∃ row, row ∈ reader
          ∧ let dep_raw := Py.strip (Py.or_empty (Py.get row "department_allowed")) in
            PolicyRole.allowed_departments policy = allowed_departments_of dep_raw
            ∧ ("*" ∈ Py.strip <$> Py.split "," dep_raw →
               "*" ∈ PolicyRole.allowed_departments policy))
  ∧ ∀ clock duplicate_pairs stale_cutoff stale_days n,
      "*" ∈ PolicyRole.allowed_departments policy →
      ¬ fires "ROLE_NOT_ALLOWED_FOR_DEPARTMENT"
          (row_violations clock policy_roles duplicate_pairs
             stale_cutoff stale_days r n).
Proof.
  intros Hload Hpol. split.
  - destruct (read_policy_roles_lookup _ _ _ _ _ _ Hload Hpol)
      as (row & Hin & role_raw & _ & _ & _ & _ & ->).
    exists row. split; [exact Hin|]. cbn [PolicyRole.allowed_departments].
    split; [reflexivity|].
    intros Hstar. apply elem_of_allowed_departments_of.
    case_decide; [reflexivity|]. split; [discriminate|exact Hstar].
  - intros clock duplicate_pairs stale_cutoff stale_days n Hstar.
    rewrite fires_row_violations, Hpol.
    intros [(_ & Hno & _)|[(? & _)|[(? & _)|[(? & _)|(? & _)]]]];
      try discriminate.
    exact (Hno Hstar).
Qed.

Lemma star_member_allows_all_witness :
  let policy := PolicyRole.mk "analyst" {["finance"; "*"]} "" in
  let r := AccessRow.mk "U1" "Ann" "sales" "analyst" "active" None in
  ¬ fires "ROLE_NOT_ALLOWED_FOR_DEPARTMENT"
      (row_violations (λ _, 0%Z) {["analyst" := policy]} ∅ 0 90 r 0).
Proof.
  intros policy r.
  refine (proj2 (star_member_allows_all "policy_roles.csv" policy_columns
                   [policy_row "analyst" "finance,*" ""]
                   {["analyst" := policy]} r policy _ _)
            (λ _, 0%Z) ∅ 0%Z 90%Z 0 _).
  - vm_compute. reflexivity.
  - vm_compute. reflexivity.
  - refine (bool_decide_unpack _ _). vm_compute. exact I.
Defined.

(** * Further properties of the reviewer *)

(** ** When the review returns *)

Lemma cutoff_of_Ok_iff now stale_days :
  (∃ cutoff, cutoff_of now stale_days = Ok cutoff)
  ↔ (Z.abs stale_days ≤ 999999999
     ∧ 0 ≤ now - stale_days * Py.us_per_day < Py.datetime_end)%Z.
Proof.
  unfold cutoff_of, Py.timedelta_days, Py.datetime_sub, result_bind.
  repeat case_decide; split; try (intros [? [=]]); try tauto; eauto.
Qed.

Lemma cutoff_of_Raise now stale_days e :
  cutoff_of now stale_days = Raise e → e = OverflowError.
Proof.
  unfold cutoff_of, Py.timedelta_days, Py.datetime_sub, result_bind.
  repeat case_decide; congruence.
Qed.

(** X1. The review returns a list exactly when the threshold is a valid
    [timedelta] and the cutoff a valid [datetime]; otherwise it raises
    OverflowError, having read the clock once. *)
Theorem review_access_returns_iff clock (rows : list AccessRow.t)
    (policy_roles : gmap string PolicyRole.t) stale_days t0 :
  ((∃ vs, fst (review_access clock rows policy_roles stale_days t0) = Ok vs)
   ↔ (Z.abs stale_days ≤ 999999999
      ∧ 0 ≤ clock t0 - stale_days * Py.us_per_day < Py.datetime_end)%Z)
  ∧ ((∀ vs, fst (review_access clock rows policy_roles stale_days t0) ≠ Ok vs) →
     review_access clock rows policy_roles stale_days t0
     = (Raise OverflowError, S t0)).
Proof.
  rewrite review_access_unfold. split.
  - rewrite <- cutoff_of_Ok_iff.
    destruct (cutoff_of (clock t0) stale_days) as [cutoff|e]; cbn [fst].
    + split; eauto.
    + split; intros [? [=]].
  - destruct (cutoff_of (clock t0) stale_days) as [cutoff|e] eqn:Hcut; cbn [fst].
    + intros Hno. exfalso. exact (Hno _ eq_refl).
    + intros _. apply cutoff_of_Raise in Hcut. subst e. reflexivity.
Qed.

(** ** What the returned list contains *)

Lemma elem_of_row_segments
    clock (policy_roles : gmap string PolicyRole.t) duplicate_pairs
    stale_cutoff stale_days (rows : list AccessRow.t) :
  ∀ n seg,
    seg ∈ row_segments clock policy_roles duplicate_pairs
            stale_cutoff stale_days rows n →
    ∃ r m, r ∈ rows
           ∧ seg = row_violations clock policy_roles duplicate_pairs
                     stale_cutoff stale_days r m.
Proof.
  induction rows as [|r rows IH]; intros n seg; cbn [row_segments].
  - intros Hin. inversion Hin.
  - rewrite elem_of_cons. intros [->|Hin].
    + exists r, n. split; [left|reflexivity].
    + destruct (IH _ _ Hin) as (r' & m & Hr' & ->).
      exists r', m. split; [right; exact Hr'|reflexivity].
Qed.

Lemma elem_of_concat_segments {A} (segs : list (list A)) (x : A) :
  x ∈ concat segs ↔ ∃ seg, seg ∈ segs ∧ x ∈ seg.
Proof.
  induction segs as [|s segs IH]; cbn [concat].
  - split; [intros H; inversion H|intros (? & H & _); inversion H].
  - rewrite elem_of_app, IH. split.
    + intros [Hx|(seg & Hseg & Hx)].
      * exists s. split; [left|exact Hx].
      * exists seg. split; [right; exact Hseg|exact Hx].
    + intros (seg & Hseg & Hx). apply elem_of_cons in Hseg as [->|Hseg]; eauto.
Qed.

(** X2. Every violation the review returns copies the identity of an entry of
    the batch, and its severity is the one fixed for its issue: HIGH for
    UNKNOWN_ROLE, ROLE_NOT_ALLOWED_FOR_DEPARTMENT and
    INACTIVE_USER_HAS_ACCESS, MEDIUM for INVALID_STATUS, LOW for
    DUPLICATE_USER_ROLE_ENTRY and STALE_ACCOUNT. *)
Theorem review_access_violations_wellformed clock (rows : list AccessRow.t)
    (policy_roles : gmap string PolicyRole.t) stale_days t0 vs v :
  fst (review_access clock rows policy_roles stale_days t0) = Ok vs →
  v ∈ vs →
  (∃ r, r ∈ rows ∧ about r v)
  ∧ (Violation.issue v, Violation.severity v)
    ∈ [("UNKNOWN_ROLE", "HIGH"); ("ROLE_NOT_ALLOWED_FOR_DEPARTMENT", "HIGH");
       ("INVALID_STATUS", "MEDIUM"); ("INACTIVE_USER_HAS_ACCESS", "HIGH");
       ("DUPLICATE_USER_ROLE_ENTRY", "LOW"); ("STALE_ACCOUNT", "LOW")].
Proof.
  rewrite review_access_unfold.
  destruct (cutoff_of (clock t0) stale_days) as [cutoff|e]; [|discriminate].
  intros [= <-] Hv.
  apply elem_of_concat_segments in Hv as (seg & Hseg & Hv).
  apply elem_of_row_segments in Hseg as (r & m & Hr & ->).
  split.
  - exists r. split; [exact Hr|]. eapply about_row_violations. exact Hv.
  - eapply severity_row_violations. exact Hv.
Qed.

Lemma length_concat_segments
    clock (policy_roles : gmap string PolicyRole.t) duplicate_pairs
    stale_cutoff stale_days (rows : list AccessRow.t) :
  ∀ n, length (concat (row_segments clock policy_roles duplicate_pairs
                         stale_cutoff stale_days rows n))
       ≤ 3 * length rows.
Proof.
  induction rows as [|r rows IH]; intros n; cbn [row_segments concat length].
  - lia.
  - rewrite length_app.
    pose proof (row_violations_at_most_three clock policy_roles duplicate_pairs
                  stale_cutoff stale_days r n).
    specialize (IH (row_ticks clock policy_roles duplicate_pairs
                      stale_cutoff stale_days r n)).
    lia.
Qed.

(** ** Clean batches *)

Lemma row_violations_nil
    clock (policy_roles : gmap string PolicyRole.t) duplicate_pairs
    stale_cutoff stale_days (r : AccessRow.t) (n : nat) :
  row_violations clock policy_roles duplicate_pairs stale_cutoff stale_days r n = []
  ↔ row_clean policy_roles stale_cutoff r
    ∧ (AccessRow.user_id r, AccessRow.role r) ∉ duplicate_pairs.
Proof.
  rewrite row_violations_eq. unfold row_clean.
  destruct (policy_roles !! AccessRow.role r) as [policy|].
  - unfold known_role_parts, department_part, status_part, duplicate_part,
      stale_part.
    split.
    + intros Hnil.
      apply app_eq_nil in Hnil as [Hd Hnil].
      apply app_eq_nil in Hnil as [Hs Hnil].
      apply app_eq_nil in Hnil as [Hp Ht].
      repeat case_decide; try discriminate.
      all: assert (Hact : AccessRow.status r = "active") by set_solver.
      all: split; [|assumption].
      all: exists policy; split; [reflexivity|]; split;
        [destruct (decide ("*" ∈ PolicyRole.allowed_departments policy));
           [tauto|];
         destruct (decide (AccessRow.department r
                           ∈ PolicyRole.allowed_departments policy)); tauto|].
      all: split; [exact Hact|]; intros ll Hll; rewrite Hll in Ht.
      all: case_decide as Htc; [discriminate|].
      all: destruct (decide (ll < stale_cutoff)%Z); [exfalso; tauto|lia].
    + intros [(policy' & [= <-] & Hdep & Hact & Hlogin) Hdup].
      rewrite decide_False by tauto.
      rewrite (decide_False (P := AccessRow.status r ∉ _)) by set_solver.
      rewrite (decide_False (P := AccessRow.status r = "inactive")) by congruence.
      rewrite decide_False by exact Hdup.
      destruct (AccessRow.last_login r) as [ll|]; [|reflexivity].
      specialize (Hlogin ll eq_refl).
      rewrite decide_False by lia. reflexivity.
  - split; [discriminate|]. intros [(policy & [=] & _) _].
Qed.

Lemma pair_count_pos p rows :
  1 ≤ pair_count p rows
  ↔ ∃ r, r ∈ rows ∧ (AccessRow.user_id r, AccessRow.role r) = p.
Proof.
  induction rows as [|r rows IH].
  - unfold pair_count. simpl. split; [lia|]. intros (? & H & _). inversion H.
  - rewrite pair_count_cons. case_decide as Hkey.
    + split; [|lia]. intros _. exists r. split; [left|exact Hkey].
    + rewrite Nat.add_0_l, IH. split.
      * intros (r' & Hr' & Hk). exists r'. split; [right; exact Hr'|exact Hk].
      * intros (r' & Hr' & Hk). apply elem_of_cons in Hr' as [->|Hr']; [tauto|].
        eauto.
Qed.

Lemma concat_segments_nil
    clock (policy_roles : gmap string PolicyRole.t) duplicate_pairs
    stale_cutoff stale_days (rows : list AccessRow.t) :
  ∀ n, concat (row_segments clock policy_roles duplicate_pairs
                 stale_cutoff stale_days rows n) = []
       ↔ Forall (λ r, row_clean policy_roles stale_cutoff r
                      ∧ (AccessRow.user_id r, AccessRow.role r) ∉ duplicate_pairs)
           rows.
Proof.
  induction rows as [|r rows IH]; intros n; cbn [row_segments concat].
  - split; [constructor|reflexivity].
  - rewrite Forall_cons.
    rewrite <- (IH (row_ticks clock policy_roles duplicate_pairs
                      stale_cutoff stale_days r n)).
    rewrite <- (row_violations_nil clock _ _ _ stale_days r n).
    split.
    + intros H. apply app_eq_nil in H. exact H.
    + intros [-> ->]. reflexivity.
Qed.

(** X4. The review returns the empty list exactly when the cutoff can be
    computed, no [(user_id, role)] pair occurs twice, and every entry has a
    known role, an allowed department, status ["active"] and no last login
    before the cutoff. *)
Theorem review_access_clean_iff clock (rows : list AccessRow.t)
    (policy_roles : gmap string PolicyRole.t) stale_days t0 :
  fst (review_access clock rows policy_roles stale_days t0) = Ok []
  ↔ ∃ stale_cutoff,
      cutoff_of (clock t0) stale_days = Ok stale_cutoff
      ∧ find_duplicates rows = ∅
      ∧ Forall (row_clean policy_roles stale_cutoff) rows.
Proof.
  rewrite review_access_unfold.
  destruct (cutoff_of (clock t0) stale_days) as [cutoff|e]; cbn [fst].
  - split.
    + intros [= Hnil]. apply concat_segments_nil in Hnil.
      exists cutoff. split; [reflexivity|].
      rewrite Forall_forall in Hnil. split.
      * apply set_eq. intros p. rewrite elem_of_empty. split; [|tauto].
        intros Hp. pose proof Hp as Hp2.
        apply elem_of_find_duplicates in Hp2.
        destruct (proj1 (pair_count_pos p rows)) as (r & Hr & Hk); [lia|].
        subst p. exact (proj2 (Hnil r Hr) Hp).
      * apply Forall_forall. intros r Hr. exact (proj1 (Hnil r Hr)).
    + intros (cutoff' & [= <-] & Hdups & Hclean). f_equal.
      apply concat_segments_nil. rewrite Hdups.
      eapply Forall_impl; [exact Hclean|]. intros r Hr.
      split; [exact Hr|apply not_elem_of_empty].
  - split; [discriminate|]. intros (? & [=] & _).
Qed.

(** ** Reordering the batch *)

Lemma concat_fmap_Permutation {A B} (f : A → list B) (l l' : list A) :
  l ≡ₚ l' → concat (f <$> l) ≡ₚ concat (f <$> l').
Proof.
  induction 1 as [|x l l' _ IH|x y l|l1 l2 l3 _ IH1 _ IH2]; cbn [fmap list_fmap concat].
  - reflexivity.
  - rewrite IH. reflexivity.
  - rewrite !app_assoc. apply Permutation_app_tail, Permutation_app_comm.
  - etransitivity; eassumption.
Qed.

Lemma row_segments_frozen_fmap
    (policy_roles : gmap string PolicyRole.t) duplicate_pairs
    stale_cutoff stale_days (rows : list AccessRow.t) now clock n :
  (∀ k, clock k = now) →
  row_segments clock policy_roles duplicate_pairs stale_cutoff stale_days rows n
  = (λ r, row_violations (λ _, now) policy_roles duplicate_pairs
            stale_cutoff stale_days r 0) <$> rows.
Proof.
  intros Hfrozen.
  rewrite (row_segments_frozen _ _ _ _ _ now clock n Hfrozen). clear.
  generalize 0 at 1. induction rows as [|r rows IH]; intros n; [reflexivity|].
  cbn [row_segments fmap list_fmap]. f_equal.
  - rewrite !row_violations_eq.
    destruct (policy_roles !! AccessRow.role r); reflexivity.
  - apply IH.
Qed.

(** X5. With the clock frozen, reviewing a reordered batch returns the same
    violations in another order: each entry is judged on its own and on
    the duplicate set, which does not depend on the order. *)
Theorem review_access_Permutation clock (rows rows' : list AccessRow.t)
    (policy_roles : gmap string PolicyRole.t) stale_days t0 t0' now vs :
  (∀ n, clock n = now) →
  rows ≡ₚ rows' →
  fst (review_access clock rows policy_roles stale_days t0) = Ok vs →
  ∃ vs', fst (review_access clock rows' policy_roles stale_days t0') = Ok vs'
         ∧ vs ≡ₚ vs'.
Proof.
  intros Hfrozen Hperm. rewrite !review_access_unfold, !Hfrozen.
  destruct (cutoff_of now stale_days) as [cutoff|e]; [|discriminate].
  cbn [fst]. intros [= <-]. eexists. split; [reflexivity|].
  rewrite !(row_segments_frozen_fmap _ _ _ _ _ now clock _ Hfrozen).
  rewrite (find_duplicates_Permutation rows rows' Hperm).
  apply concat_fmap_Permutation. exact Hperm.
Qed.

(** ** The staleness threshold *)

(** X6. What a STALE_ACCOUNT violation reports.  It carries the whole days
    between the clock reading made for it and the last login; when that
    reading is not earlier than the one the cutoff was computed from, the
    number of days reported is at least the threshold. *)
Theorem stale_days_reported clock (policy_roles : gmap string PolicyRole.t)
    duplicate_pairs (now stale_days stale_cutoff : Z) (r : AccessRow.t)
    (n : nat) v :
  cutoff_of now stale_days = Ok stale_cutoff →
  v ∈ row_violations clock policy_roles duplicate_pairs
        stale_cutoff stale_days r n →
  Violation.issue v = "STALE_ACCOUNT" →
  ∃ last_login,
    AccessRow.last_login r = Some last_login
    ∧ v = stale_violation r (clock n) last_login stale_days
    ∧ ((now ≤ clock n)%Z → (stale_days ≤ Py.diff_days (clock n) last_login)%Z).
Proof.
  intros Hcut Hv Hi. apply cutoff_of_Ok in Hcut. subst stale_cutoff.
  rewrite row_violations_eq in Hv.
  destruct (policy_roles !! AccessRow.role r) as [policy|].
  - apply elem_of_known_role_parts in Hv.
    rewrite elem_of_department_part, elem_of_status_part,
      elem_of_duplicate_part, elem_of_stale_part in Hv.
    destruct Hv as [(-> & ?)|[[(-> & ?)|(-> & ?)]|[(-> & ?)|(ll & Hll & -> & Hlt & _)]]];
      try discriminate Hi.
    exists ll. split; [exact Hll|]. split; [reflexivity|].
    intros Hmono. unfold Py.diff_days, Py.us_per_day in *.
    apply Z.div_le_lower_bound; lia.
  - apply list_elem_of_singleton in Hv. subst v. discriminate Hi.
Qed.

(** X7. Raising the threshold never flags an account that a lower threshold
    leaves alone. *)
Theorem stale_threshold_antitone clock (policy_roles : gmap string PolicyRole.t)
    duplicate_pairs duplicate_pairs' (now stale_days stale_days' cutoff cutoff' : Z)
    (r : AccessRow.t) (n n' : nat) :
  cutoff_of now stale_days = Ok cutoff →
  cutoff_of now stale_days' = Ok cutoff' →
  (stale_days ≤ stale_days')%Z →
  fires "STALE_ACCOUNT"
    (row_violations clock policy_roles duplicate_pairs' cutoff' stale_days' r n') →
  fires "STALE_ACCOUNT"
    (row_violations clock policy_roles duplicate_pairs cutoff stale_days r n).
Proof.
  intros Hc Hc' Hle.
  apply cutoff_of_Ok in Hc, Hc'. subst cutoff cutoff'.
  rewrite !fires_row_violations.
  destruct (policy_roles !! AccessRow.role r) as [policy|]; [|tauto].
  intros [(? & _)|[(? & _)|[(? & _)|[(? & _)|(_ & ll & Hll & Hlt & Hact)]]]];
    try discriminate.
  do 4 right. split; [reflexivity|]. exists ll.
  split; [exact Hll|]. split; [|exact Hact].
  unfold Py.us_per_day in *. lia.
Qed.

(** ** Size of the duplicate set *)

Lemma find_duplicates_fold_size rows :
  ∀ seen dups : gset (string * string),
    dups ⊆ seen →
    snd (fold_left find_duplicates_step rows (seen, dups))
    ⊆ fst (fold_left find_duplicates_step rows (seen, dups))
    ∧ size (fst (fold_left find_duplicates_step rows (seen, dups)))
      + size (snd (fold_left find_duplicates_step rows (seen, dups)))
      ≤ size seen + size dups + length rows.
Proof.
  induction rows as [|r rows IH]; intros seen dups Hsub.
  - cbn [fold_left fst snd length]. split; [exact Hsub|lia].
  - cbn [fold_left length].
    unfold find_duplicates_step at 2 4 6 8.
    set (key := (AccessRow.user_id r, AccessRow.role r)).
    case_decide as Hseen.
    + destruct (IH seen ({[key]} ∪ dups)) as [Hs Hn]; [set_solver|].
      split; [exact Hs|].
      assert (size ({[key]} ∪ dups) ≤ 1 + size dups).
      { rewrite size_union_alt, size_singleton.
        assert (size (dups ∖ {[key]}) ≤ size dups)
          by (apply subseteq_size; set_solver).
        lia. }
      lia.
    + destruct (IH ({[key]} ∪ seen) dups) as [Hs Hn]; [set_solver|].
      split; [exact Hs|].
      assert (size ({[key]} ∪ seen) = 1 + size seen).
      { rewrite size_union by set_solver. rewrite size_singleton. lia. }
      lia.
Qed.

(** X8. A duplicated pair needs two entries: the duplicate set has at most
    half as many pairs as the batch has entries. *)
Theorem find_duplicates_size rows :
  2 * size (find_duplicates rows) ≤ length rows.
Proof.
  unfold find_duplicates.
  destruct (find_duplicates_fold_size rows ∅ ∅) as [Hsub Hlen]; [set_solver|].
  apply subseteq_size in Hsub. rewrite !size_empty in Hlen. lia.
Qed.

(** * Further properties of the policy loader *)

Lemma getitem_role row role_raw :
  row !! "role" = Some role_raw →
  Py.strip (Py.or_empty role_raw) = row_key row.
Proof. intros H. unfold row_key, Py.get. rewrite H. reflexivity. Qed.

Lemma read_policy_rows_cons_ok path i row reader roles :
  row_ok row →
  read_policy_rows path i (row :: reader) roles
  = read_policy_rows path (S i) reader (<[row_key row := row_policy row]> roles).
Proof.
  intros ([role_raw Hraw] & Hkey & Hspec).
  cbn [read_policy_rows]. unfold Py.getitem. rewrite Hraw. cbn [result_bind].
  rewrite (getitem_role _ _ Hraw).
  rewrite decide_False by exact Hkey.
  fold (row_spec row). rewrite decide_False by exact Hspec.
  reflexivity.
Qed.

Lemma read_policy_rows_cons_Ok_inv path i row reader roles roles' :
  read_policy_rows path i (row :: reader) roles = Ok roles' → row_ok row.
Proof.
  cbn [read_policy_rows]. unfold Py.getitem, row_ok.
  destruct (row !! "role") as [role_raw|] eqn:Hraw; [|discriminate].
  cbn [result_bind]. rewrite (getitem_role _ _ Hraw). fold (row_spec row).
  repeat case_decide; try discriminate. intros _. eauto.
Qed.

Lemma read_policy_rows_Ok_iff path reader :
  ∀ i roles roles',
    read_policy_rows path i reader roles = Ok roles'
    ↔ Forall row_ok reader ∧ roles' = store_rows reader roles.
Proof.
  induction reader as [|row reader IH]; intros i roles roles'.
  - cbn. split.
    + intros [= <-]. split; [constructor|reflexivity].
    + intros [_ ->]. reflexivity.
  - split.
    + intros Hload.
      pose proof (read_policy_rows_cons_Ok_inv _ _ _ _ _ _ Hload) as Hok.
      rewrite (read_policy_rows_cons_ok _ _ _ _ _ Hok) in Hload.
      apply IH in Hload as [Hall ->].
      split; [constructor; assumption|reflexivity].
    + intros [Hall ->]. apply Forall_cons in Hall as [Hok Hall].
      rewrite (read_policy_rows_cons_ok _ _ _ _ _ Hok).
      apply IH. split; [exact Hall|reflexivity].
Qed.

Lemma difference_empty_subseteq (X Y : gset string) : X ∖ Y = ∅ ↔ X ⊆ Y.
Proof.
  split.
  - intros H x Hx. destruct (decide (x ∈ Y)) as [|Hn]; [assumption|].
    assert (Hd : x ∈ X ∖ Y) by (apply elem_of_difference; tauto).
    rewrite H in Hd. apply elem_of_empty in Hd. destruct Hd.
  - intros H. apply set_eq. intros x.
    rewrite elem_of_difference, elem_of_empty. split; [|tauto].
    intros [Hx Hn]. apply Hn, H, Hx.
Qed.

Lemma read_policy_roles_Ok_inv path fieldnames reader roles :
  read_policy_roles path fieldnames reader = Ok roles →
  required_policy_columns ⊆ list_to_set fieldnames
  ∧ Forall row_ok reader
  ∧ roles = store_rows reader ∅.
Proof.
  unfold read_policy_roles. case_decide as Hmiss; [|discriminate].
  intros Hload. apply read_policy_rows_Ok_iff in Hload.
  apply difference_empty_subseteq in Hmiss. tauto.
Qed.

Lemma read_policy_roles_Ok_intro path fieldnames reader :
  required_policy_columns ⊆ list_to_set fieldnames →
  Forall row_ok reader →
  read_policy_roles path fieldnames reader = Ok (store_rows reader ∅).
Proof.
  intros Hcols Hok. unfold read_policy_roles.
  rewrite decide_True by (apply difference_empty_subseteq; exact Hcols).
  apply read_policy_rows_Ok_iff. split; [exact Hok|reflexivity].
Qed.

(** X11. The load succeeds exactly when the header has the three columns and
    every row has a [role] field, a role that is not blank and a department
    specification that is not blank; the catalog is then obtained by
    storing the rows in file order, a later row overwriting an earlier one
    with the same role. *)
Theorem read_policy_roles_Ok_iff path fieldnames reader roles :
  read_policy_roles path fieldnames reader = Ok roles
  ↔ required_policy_columns ⊆ list_to_set fieldnames
    ∧ Forall row_ok reader
    ∧ roles = store_rows reader ∅.
Proof.
  split.
  - apply read_policy_roles_Ok_inv.
  - intros (Hcols & Hok & ->). apply read_policy_roles_Ok_intro; assumption.
Qed.

Lemma store_rows_app reader1 reader2 roles :
  store_rows (reader1 ++ reader2) roles
  = store_rows reader2 (store_rows reader1 roles).
Proof. unfold store_rows. apply fold_left_app. Qed.

Lemma store_rows_lookup_ne reader :
  ∀ roles role,
    Forall (λ row, row_key row ≠ role) reader →
    store_rows reader roles !! role = roles !! role.
Proof.
  induction reader as [|row reader IH]; intros roles role Hall; [reflexivity|].
  apply Forall_cons in Hall as [Hne Hall].
  unfold store_rows in *. cbn [fold_left]. rewrite IH by exact Hall.
  apply lookup_insert_ne. exact Hne.
Qed.

Lemma store_rows_lookup reader :
  ∀ roles role p,
    store_rows reader roles !! role = Some p →
    roles !! role = Some p
    ∨ ∃ row, row ∈ reader ∧ row_key row = role ∧ p = row_policy row.
Proof.
  induction reader as [|row reader IH]; intros roles role p; [eauto|].
  unfold store_rows in *. cbn [fold_left]. intros Hp.
  apply IH in Hp as [Hp|(row' & Hin & Hk & Hp)].
  - rewrite lookup_insert in Hp. case_decide as Hk.
    + right. exists row. injection Hp as <-. split; [left|]. auto.
    + left. exact Hp.
  - right. exists row'. split; [right; exact Hin|]. auto.
Qed.

(** X12. Last write wins: the entry of a loaded catalog under a role is built
    from the last row of the file with that role. *)
Theorem read_policy_roles_last_wins path fieldnames before row after roles :
  read_policy_roles path fieldnames (before ++ row :: after) = Ok roles →
  Forall (λ row', row_key row' ≠ row_key row) after →
  roles !! row_key row = Some (row_policy row).
Proof.
  intros Hload Hafter. apply read_policy_roles_Ok_inv in Hload as (_ & _ & ->).
  rewrite store_rows_app.
  change (row :: after) with ([row] ++ after). rewrite store_rows_app.
  rewrite store_rows_lookup_ne by exact Hafter.
  unfold store_rows. cbn [fold_left]. apply lookup_insert_eq.
Qed.

Lemma empty_not_in_allowed_departments_of dep_raw :
  "" ∉ allowed_departments_of dep_raw.
Proof.
  rewrite elem_of_allowed_departments_of. case_decide; [discriminate|].
  intros [Hne _]. exact (Hne eq_refl).
Qed.

(** X13. What a loaded catalog holds: the keys are the roles of the rows,
    stripped and never blank; each entry repeats its key in its [role]
    field and comes from a row of the file; and the empty string is never
    an allowed department. *)
Theorem read_policy_roles_catalog path fieldnames reader roles :
  read_policy_roles path fieldnames reader = Ok roles →
  (∀ role, role ∈ dom roles ↔ ∃ row, row ∈ reader ∧ row_key row = role)
  ∧ ∀ role p, roles !! role = Some p →
      role ≠ ""
      ∧ PolicyRole.role p = role
      ∧ ("" ∉ PolicyRole.allowed_departments p)
      ∧ ∃ row, row ∈ reader ∧ p = row_policy row.
Proof.
  intros Hload. apply read_policy_roles_Ok_inv in Hload as (_ & Hok & ->).
  split.
  - intros role. rewrite elem_of_dom. split.
    + intros [p Hp]. apply store_rows_lookup in Hp as [Hp|(row & Hin & Hk & _)].
      * rewrite lookup_empty in Hp. discriminate.
      * eauto.
    + intros (row & Hin & <-).
      apply list_elem_of_split in Hin as (before & after & ->).
      clear Hok. revert before.
      induction after as [|row' after IH] using rev_ind; intros before.
      * rewrite store_rows_app. unfold store_rows at 1. cbn [fold_left].
        rewrite lookup_insert_eq. eauto.
      * rewrite app_comm_cons, app_assoc, store_rows_app.
        unfold store_rows at 1. cbn [fold_left].
        rewrite lookup_insert. case_decide; [eauto|]. apply IH.
  - intros role p Hp. apply store_rows_lookup in Hp as [Hp|(row & Hin & <- & ->)].
    + rewrite lookup_empty in Hp. discriminate.
    + rewrite Forall_forall in Hok. destruct (Hok row Hin) as (_ & Hkey & _).
      split; [exact Hkey|]. split; [reflexivity|].
      split; [apply empty_not_in_allowed_departments_of|]. eauto.
Qed.

Lemma read_policy_rows_app_ok path good :
  ∀ i rest roles,
    Forall row_ok good →
    read_policy_rows path i (good ++ rest) roles
    = read_policy_rows path (i + length good) rest (store_rows good roles).
Proof.
  induction good as [|row good IH]; intros i rest roles Hall.
  - cbn [app length store_rows fold_left]. rewrite Nat.add_0_r. reflexivity.
  - apply Forall_cons in Hall as [Hok Hall]. cbn [app length].
    rewrite (read_policy_rows_cons_ok _ _ _ _ _ Hok), IH by exact Hall.
    f_equal. lia.
Qed.

(** X14. The load stops at the first row it rejects and names its line: the
    header is line 1 and the [k]-th row line [k + 2].  A row without [role]
    field raises KeyError, a blank role the "empty role" error, and
    otherwise a blank department specification the
    "department_allowed is empty" error; later rows are not looked at. *)
Theorem read_policy_roles_first_error path fieldnames good bad rest :
  required_policy_columns ⊆ list_to_set fieldnames →
  Forall row_ok good →
  ¬ row_ok bad →
  read_policy_roles path fieldnames (good ++ bad :: rest)
  = Raise
      (if decide (is_Some (bad !! "role")) then
         ValueError
           (path +:+ ": line " +:+ Py.str_of_int (Z.of_nat (length good + 2))
            +:+ (if decide (row_key bad = "") then ": empty role"
                 else ": department_allowed is empty"))
       else KeyError "role").
Proof.
  intros Hcols Hgood Hbad. unfold read_policy_roles.
  rewrite decide_True by (apply difference_empty_subseteq; exact Hcols).
  rewrite (read_policy_rows_app_ok _ _ _ _ _ Hgood).
  cbn [read_policy_rows]. unfold Py.getitem, row_ok in *.
  destruct (bad !! "role") as [role_raw|] eqn:Hraw; cbn [result_bind].
  - rewrite (decide_True (P := is_Some (Some role_raw)))
      by (eexists; reflexivity).
    rewrite (getitem_role _ _ Hraw). fold (row_spec bad).
    replace (2 + length good) with (length good + 2) by lia.
    destruct (decide (row_key bad = "")) as [|Hkey]; [reflexivity|].
    destruct (decide (row_spec bad = "")) as [|Hspec]; [reflexivity|].
    exfalso. apply Hbad. eauto.
  - rewrite (decide_False (P := is_Some None)); [reflexivity|].
    intros [? [=]].
Qed.

(** * Properties of the access-list loader *)

Section read_access_list_facts.
Variable strptime : string → option Z.
Variable lower : string → string.

Lemma getitem_get row k v :
  row !! k = Some v → Py.get row k = v.
Proof. intros H. unfold Py.get. rewrite H. reflexivity. Qed.

Lemma read_access_rows_cons_ok path i row reader rows :
  access_row_ok strptime row →
  read_access_rows strptime lower path i (row :: reader) rows
  = read_access_rows strptime lower path (S i) reader
      (rows ++ [access_row_of strptime lower row]).
Proof.
  intros [Hdate Hkeys].
  repeat (apply Forall_cons in Hkeys as [[? ?] Hkeys]).
  cbn [read_access_rows]. unfold Py.getitem, access_row_of.
  fold (row_last_login row).
  repeat match goal with
         | H : row !! ?k = Some ?v |- _ =>
             rewrite H; rewrite (getitem_get _ _ _ H); clear H
         end.
  destruct Hdate as [Hblank|[dt Hdt]].
  - rewrite !decide_True by exact Hblank. reflexivity.
  - case_decide; [reflexivity|]. rewrite Hdt. reflexivity.
Qed.

Lemma read_access_rows_cons_Ok_inv path i row reader rows rows' :
  read_access_rows strptime lower path i (row :: reader) rows = Ok rows' →
  access_row_ok strptime row.
Proof.
  cbn [read_access_rows]. unfold Py.getitem, access_row_ok, date_ok.
  fold (row_last_login row).
  intros Hload.
  assert (Hdate : row_last_login row = ""
                  ∨ is_Some (strptime (row_last_login row))).
  { destruct (decide (row_last_login row = "")) as [|Hne]; [left; assumption|].
    right. destruct (strptime (row_last_login row)); [eauto|discriminate]. }
  split; [exact Hdate|].
  destruct (if decide (row_last_login row = "") then _ else _) as [dt|e];
    [|discriminate].
  cbn [result_bind] in Hload.
  destruct (row !! "user_id") eqn:?; [|discriminate]. cbn [result_bind] in Hload.
  destruct (row !! "user_name") eqn:?; [|discriminate]. cbn [result_bind] in Hload.
  destruct (row !! "department") eqn:?; [|discriminate]. cbn [result_bind] in Hload.
  destruct (row !! "role") eqn:?; [|discriminate]. cbn [result_bind] in Hload.
  destruct (row !! "status") eqn:?; [|discriminate].
  repeat constructor; eexists; eassumption.
Qed.

Lemma read_access_rows_Ok_iff path reader :
  ∀ i rows rows',
    read_access_rows strptime lower path i reader rows = Ok rows'
    ↔ Forall (access_row_ok strptime) reader
      ∧ rows' = rows ++ (access_row_of strptime lower <$> reader).
Proof.
  induction reader as [|row reader IH]; intros i rows rows'.
  - cbn. rewrite app_nil_r. split.
    + intros [= <-]. split; [constructor|reflexivity].
    + intros [_ ->]. reflexivity.
  - split.
    + intros Hload.
      pose proof (read_access_rows_cons_Ok_inv _ _ _ _ _ _ Hload) as Hok.
      rewrite (read_access_rows_cons_ok _ _ _ _ _ Hok) in Hload.
      apply IH in Hload as [Hall ->].
      split; [constructor; assumption|].
      rewrite <- app_assoc. reflexivity.
    + intros [Hall ->]. apply Forall_cons in Hall as [Hok Hall].
      rewrite (read_access_rows_cons_ok _ _ _ _ _ Hok).
      apply IH. split; [exact Hall|]. rewrite <- app_assoc. reflexivity.
Qed.

Lemma read_access_list_Ok_inv path fieldnames reader rows :
  read_access_list strptime lower path fieldnames reader = Ok rows →
  required_access_columns ⊆ list_to_set fieldnames
  ∧ Forall (access_row_ok strptime) reader
  ∧ rows = access_row_of strptime lower <$> reader.
Proof.
  unfold read_access_list. case_decide as Hmiss; [|discriminate].
  intros Hload. apply read_access_rows_Ok_iff in Hload. cbn [app] in Hload.
  apply difference_empty_subseteq in Hmiss. tauto.
Qed.

Lemma read_access_list_Ok_intro path fieldnames reader :
  required_access_columns ⊆ list_to_set fieldnames →
  Forall (access_row_ok strptime) reader →
  read_access_list strptime lower path fieldnames reader
  = Ok (access_row_of strptime lower <$> reader).
Proof.
  intros Hcols Hok. unfold read_access_list.
  rewrite decide_True by (apply difference_empty_subseteq; exact Hcols).
  apply read_access_rows_Ok_iff. split; [exact Hok|reflexivity].
Qed.

(** X16. The access list loads exactly when the header has the six columns and
    every row has the five text fields and a last login that is blank or
    that [strptime] accepts.  The result then has one entry per row, in
    file order, each built from its row alone; nothing else is checked, so
    blank identifiers and unknown statuses are loaded as they are. *)
Theorem read_access_list_Ok_iff path fieldnames reader rows :
  read_access_list strptime lower path fieldnames reader = Ok rows
  ↔ required_access_columns ⊆ list_to_set fieldnames
    ∧ Forall (access_row_ok strptime) reader
    ∧ rows = access_row_of strptime lower <$> reader.
Proof.
  split.
  - apply read_access_list_Ok_inv.
  - intros (Hcols & Hok & ->). apply read_access_list_Ok_intro; assumption.
Qed.

Lemma read_access_rows_app_ok path good :
  ∀ i rest rows,
    Forall (access_row_ok strptime) good →
    read_access_rows strptime lower path i (good ++ rest) rows
    = read_access_rows strptime lower path (i + length good) rest
        (rows ++ (access_row_of strptime lower <$> good)).
Proof.
  induction good as [|row good IH]; intros i rest rows Hall.
  - cbn [app length fmap list_fmap]. rewrite Nat.add_0_r, app_nil_r. reflexivity.
  - apply Forall_cons in Hall as [Hok Hall]. cbn [app length].
    rewrite (read_access_rows_cons_ok _ _ _ _ _ Hok), IH by exact Hall.
    cbn [fmap list_fmap]. rewrite <- app_assoc. f_equal. lia.
Qed.

(** X17. A last login that is not blank and that [strptime] rejects aborts the
    load with the line of the first such row (header line 1, [k]-th row
    line [k + 2]) and the offending text; the date is looked at before the
    other fields of the row, and later rows are not looked at. *)
Theorem read_access_list_bad_date path fieldnames good bad rest :
  required_access_columns ⊆ list_to_set fieldnames →
  Forall (access_row_ok strptime) good →
  ¬ date_ok strptime bad →
  read_access_list strptime lower path fieldnames (good ++ bad :: rest)
  = Raise (ValueError
             (path +:+ ": line " +:+ Py.str_of_int (Z.of_nat (length good + 2))
              +:+ ": invalid date '" +:+ row_last_login bad
              +:+ "' (expected YYYY-MM-DD)")).
Proof.
  intros Hcols Hgood Hbad. unfold read_access_list.
  rewrite decide_True by (apply difference_empty_subseteq; exact Hcols).
  rewrite (read_access_rows_app_ok _ _ _ _ _ Hgood).
  cbn [read_access_rows]. fold (row_last_login bad). unfold date_ok in Hbad.
  rewrite decide_False by tauto.
  destruct (strptime (row_last_login bad)) as [dt|] eqn:Hdt.
  - exfalso. apply Hbad. right. eauto.
  - cbn [result_bind]. replace (2 + length good) with (length good + 2) by lia.
    reflexivity.
Qed.

End read_access_list_facts.

(** * Properties of the summary *)

Lemma tallies_snoc vs v :
  tallies (vs ++ [v]) = tally_step (tallies vs) v.
Proof. unfold tallies. rewrite fold_left_app. reflexivity. Qed.

Lemma tally_of_snoc key k vs v :
  tally_of key k (vs ++ [v])
  = tally_of key k vs + (if decide (key v = k) then 1 else 0).
Proof.
  unfold tally_of. rewrite filter_app, length_app, filter_cons, filter_nil.
  case_decide; reflexivity.
Qed.

Lemma incr_lookup k d k' :
  default 0 (incr k d !! k')
  = default 0 (d !! k') + (if decide (k = k') then 1 else 0).
Proof.
  unfold incr. rewrite lookup_insert. case_decide; [subst|]; simpl; lia.
Qed.

Lemma incr_dom k (d : gmap string nat) k' :
  k' ∈ dom (incr k d) ↔ k' = k ∨ k' ∈ dom d.
Proof.
  unfold incr. rewrite dom_insert_L, elem_of_union, elem_of_singleton.
  reflexivity.
Qed.

Lemma dict_total_incr k d : dict_total (incr k d) = S (dict_total d).
Proof.
  unfold dict_total, incr.
  destruct (d !! k) as [n|] eqn:Hk; cbn [default].
  - rewrite <- (insert_delete_eq d k (S n)).
    rewrite map_fold_insert_L; [|intros; lia|apply lookup_delete_eq].
    rewrite (map_fold_delete_L _ _ k n d); [lia|intros; lia|exact Hk].
  - rewrite map_fold_insert_L; [lia|intros; lia|exact Hk].
Qed.

Lemma items_count_incr k items k' :
  items_count k' (incr_items k items)
  = items_count k' items + (if decide (k = k') then 1 else 0).
Proof.
  induction items as [|[k0 n] items IH]; cbn [incr_items items_count].
  - repeat case_decide; lia.
  - destruct (decide (k0 = k)) as [->|Hne]; cbn [items_count].
    + destruct (decide (k = k')); lia.
    + rewrite IH. destruct (decide (k0 = k')) as [->|Hne'].
      * rewrite decide_False by congruence. lia.
      * reflexivity.
Qed.

Lemma keys_incr_items k items :
  (incr_items k items).*1
  = if decide (k ∈ items.*1) then items.*1 else items.*1 ++ [k].
Proof.
  induction items as [|[k0 n] items IH]; cbn [incr_items fmap list_fmap fst].
  - rewrite decide_False; [reflexivity|]. intros H. inversion H.
  - destruct (decide (k0 = k)) as [->|Hne]; cbn [fmap list_fmap fst].
    + rewrite decide_True; [reflexivity|left].
    + rewrite IH. destruct (decide (k ∈ items.*1)) as [Hin|Hnin].
      * rewrite decide_True; [reflexivity|right; exact Hin].
      * rewrite decide_False; [reflexivity|].
        intros Hin. apply elem_of_cons in Hin as [->|Hin]; tauto.
Qed.

Lemma sum_incr_items k items :
  sum_list (incr_items k items).*2 = S (sum_list items.*2).
Proof.
  induction items as [|[k0 n] items IH]; cbn [incr_items]; [reflexivity|].
  case_decide; cbn [fmap list_fmap snd sum_list sum_list_with].
  - reflexivity.
  - change (sum_list_with id ?l) with (sum_list l). rewrite IH. lia.
Qed.

(** Items with distinct keys and positive counts are determined by
    [items_count]. *)
Lemma elem_of_items_count items k n :
  NoDup items.*1 →
  Forall (λ kv, 0 < snd kv) items →
  (k, n) ∈ items ↔ items_count k items = n ∧ 0 < n.
Proof.
  induction items as [|[k0 n0] items IH]; intros Hnd Hpos.
  - cbn. split; [intros H; inversion H|lia].
  - cbn [fmap list_fmap fst] in Hnd. apply NoDup_cons in Hnd as [Hk0 Hnd].
    apply Forall_cons in Hpos as [Hn0 Hpos]. cbn [snd] in Hn0.
    rewrite elem_of_cons, (IH Hnd Hpos). cbn [items_count].
    destruct (decide (k0 = k)) as [->|Hne].
    + split.
      * intros [[= ->]|[Hc Hn]]; [lia|].
        exfalso. apply Hk0.
        assert (Hin : (k, n) ∈ items) by (apply IH; auto).
        apply (list_elem_of_fmap_2 fst) in Hin. exact Hin.
      * intros [-> _]. left. reflexivity.
    + split.
      * intros [[= -> ->]|H]; [congruence|exact H].
      * intros H. right. exact H.
Qed.

Lemma by_user_invariant vs :
  NoDup (by_user (tallies vs)).*1
  ∧ Forall (λ kv, 0 < snd kv) (by_user (tallies vs))
  ∧ ∀ k, items_count k (by_user (tallies vs)) = tally_of user_label k vs.
Proof.
  induction vs as [|v vs IH] using rev_ind.
  - cbn. split; [constructor|]. split; [constructor|reflexivity].
  - destruct IH as (Hnd & Hpos & Hcount).
    rewrite tallies_snoc. cbn [tally_step by_user].
    split; [|split].
    + rewrite keys_incr_items. case_decide as Hin; [exact Hnd|].
      apply NoDup_app. split; [exact Hnd|]. split.
      * intros x Hx Hx'. apply list_elem_of_singleton in Hx'. subst x. tauto.
      * apply NoDup_singleton.
    + clear -Hpos. induction (by_user (tallies vs)) as [|[k0 n] items IH];
        cbn [incr_items].
      * repeat constructor.
      * apply Forall_cons in Hpos as [Hn Hpos]. case_decide.
        -- constructor; [cbn; lia|exact Hpos].
        -- constructor; [exact Hn|apply IH; exact Hpos].
    + intros k. rewrite items_count_incr, Hcount, tally_of_snoc. reflexivity.
Qed.

Lemma by_sev_count vs k :
  default 0 (by_sev (tallies vs) !! k) = tally_of Violation.severity k vs
  ∧ (k ∈ dom (by_sev (tallies vs)) ↔ 0 < tally_of Violation.severity k vs).
Proof.
  induction vs as [|v vs [Hc Hd]] using rev_ind.
  - cbn. rewrite lookup_empty, dom_empty_L, elem_of_empty. cbn. lia.
  - rewrite tallies_snoc. cbn [tally_step by_sev].
    rewrite incr_lookup, incr_dom, tally_of_snoc, Hc, Hd.
    split; [reflexivity|]. case_decide; [subst|]; split; try lia; try tauto.
    intros [->|?]; [congruence|lia].
Qed.

Lemma by_issue_count vs k :
  default 0 (by_issue (tallies vs) !! k) = tally_of Violation.issue k vs
  ∧ (k ∈ dom (by_issue (tallies vs)) ↔ 0 < tally_of Violation.issue k vs).
Proof.
  induction vs as [|v vs [Hc Hd]] using rev_ind.
  - cbn. rewrite lookup_empty, dom_empty_L, elem_of_empty. cbn. lia.
  - rewrite tallies_snoc. cbn [tally_step by_issue].
    rewrite incr_lookup, incr_dom, tally_of_snoc, Hc, Hd.
    split; [reflexivity|]. case_decide; [subst|]; split; try lia; try tauto.
    intros [->|?]; [congruence|lia].
Qed.

(** X19. The three tallies of the summary count occurrences: a severity, an
    issue or a user label is a key exactly when some violation carries it,
    its count is the number of violations that do, each user label is
    listed once, and each tally adds up to the number of violations. *)
Theorem tallies_count vs :
  let t := tallies vs in
  (∀ k, default 0 (by_sev t !! k) = tally_of Violation.severity k vs
        ∧ (k ∈ dom (by_sev t) ↔ 0 < tally_of Violation.severity k vs))
  ∧ (∀ k, default 0 (by_issue t !! k) = tally_of Violation.issue k vs
          ∧ (k ∈ dom (by_issue t) ↔ 0 < tally_of Violation.issue k vs))
  ∧ NoDup (by_user t).*1
  ∧ (∀ k n, (k, n) ∈ by_user t ↔ n = tally_of user_label k vs ∧ 0 < n)
  ∧ dict_total (by_sev t) = length vs
  ∧ dict_total (by_issue t) = length vs
  ∧ sum_list (by_user t).*2 = length vs.
Proof.
  cbn zeta.
  destruct (by_user_invariant vs) as (Hnd & Hpos & Hcount).
  split; [|split; [|split; [exact Hnd|split; [|split; [|split]]]]].
  - intros k. apply by_sev_count.
  - intros k. apply by_issue_count.
  - intros k n. rewrite (elem_of_items_count _ _ _ Hnd Hpos), Hcount.
    split; intros [? ?]; split; congruence.
  - clear. induction vs as [|v vs IH] using rev_ind; [reflexivity|].
    rewrite tallies_snoc, length_app. cbn [tally_step by_sev length].
    rewrite dict_total_incr, IH. lia.
  - clear. induction vs as [|v vs IH] using rev_ind; [reflexivity|].
    rewrite tallies_snoc, length_app. cbn [tally_step by_issue length].
    rewrite dict_total_incr, IH. lia.
  - clear. induction vs as [|v vs IH] using rev_ind; [reflexivity|].
    rewrite tallies_snoc, length_app. cbn [tally_step by_user length].
    rewrite sum_incr_items, IH. lia.
Qed.

(** ** The ranking of users *)

Lemma insert_by_count_Permutation x l : insert_by_count x l ≡ₚ x :: l.
Proof.
  induction l as [|y l IH]; cbn [insert_by_count]; [reflexivity|].
  case_decide; [|reflexivity].
  rewrite IH. apply Permutation_swap.
Qed.

Lemma sorted_by_count_Permutation l : sorted_by_count l ≡ₚ l.
Proof.
  induction l as [|x l IH]; [reflexivity|].
  unfold sorted_by_count in *. cbn [foldr].
  rewrite insert_by_count_Permutation, IH. reflexivity.
Qed.

Lemma insert_by_count_sorted x l :
  StronglySorted (λ a b : string * nat, snd b ≤ snd a) l →
  StronglySorted (λ a b : string * nat, snd b ≤ snd a) (insert_by_count x l).
Proof.
  induction l as [|y l IH]; cbn [insert_by_count]; intros Hs.
  - repeat constructor.
  - apply StronglySorted_inv in Hs as [Hs Hy]. case_decide as Hlt.
    + constructor; [apply IH; exact Hs|].
      rewrite insert_by_count_Permutation. constructor; [lia|exact Hy].
    + constructor; [constructor; assumption|].
      constructor; [lia|].
      eapply Forall_impl; [exact Hy|]. cbn. intros z Hz. lia.
Qed.

Lemma sorted_by_count_sorted l :
  StronglySorted (λ a b : string * nat, snd b ≤ snd a) (sorted_by_count l).
Proof.
  induction l as [|x l IH]; [constructor|].
  unfold sorted_by_count in *. cbn [foldr]. apply insert_by_count_sorted, IH.
Qed.

Lemma insert_by_count_filter c x l :
  filter (λ kv : string * nat, snd kv = c) (insert_by_count x l)
  = filter (λ kv : string * nat, snd kv = c) (x :: l).
Proof.
  induction l as [|y l IH]; cbn [insert_by_count]; [reflexivity|].
  case_decide as Hlt; [|reflexivity].
  rewrite filter_cons, IH, !filter_cons.
  repeat case_decide; try reflexivity; lia.
Qed.

(** [sorted_by_count] is the stable sort by decreasing count: it
    rearranges the items, largest count first, and leaves items of equal
    count in the order they had. *)
Lemma sorted_by_count_stable l :
  sorted_by_count l ≡ₚ l
  ∧ StronglySorted (λ a b : string * nat, snd b ≤ snd a) (sorted_by_count l)
  ∧ ∀ c, filter (λ kv : string * nat, snd kv = c) (sorted_by_count l)
         = filter (λ kv : string * nat, snd kv = c) l.
Proof.
  split; [apply sorted_by_count_Permutation|].
  split; [apply sorted_by_count_sorted|].
  intros c. induction l as [|x l IH]; [reflexivity|].
  unfold sorted_by_count in *. cbn [foldr].
  rewrite insert_by_count_filter, !filter_cons, IH. reflexivity.
Qed.

Lemma StronglySorted_app_le {A} (R : relation A) l1 l2 a b :
  StronglySorted R (l1 ++ l2) → a ∈ l1 → b ∈ l2 → R a b.
Proof.
  induction l1 as [|x l1 IH]; cbn [app]; intros Hs Ha Hb.
  - inversion Ha.
  - apply StronglySorted_inv in Hs as [Hs Hx].
    apply elem_of_cons in Ha as [->|Ha]; [|eauto].
    rewrite Forall_forall in Hx. apply Hx. apply elem_of_app. right. exact Hb.
Qed.

Lemma StronglySorted_take {A} (R : relation A) n l :
  StronglySorted R l → StronglySorted R (take n l).
Proof.
  intros Hs. revert n. induction Hs as [|x l Hs IH Hx]; intros [|n];
    cbn [take]; try constructor.
  - apply IH.
  - rewrite Forall_forall in *. intros y Hy. apply Hx.
    exact (subseteq_take _ _ _ Hy).
Qed.

Lemma filter_take_prefix {A} (P : A → Prop) `{∀ x, Decision (P x)} n (l : list A) :
  filter P (take n l) `prefix_of` filter P l.
Proof.
  exists (filter P (drop n l)). rewrite <- filter_app, take_drop. reflexivity.
Qed.

(** X20. The users printed under "Top users": as many as there are distinct
    user labels, at most five; by decreasing number of violations; each
    with its number of violations; no user left out has more violations
    than a user listed; and users with equal numbers appear in the order in
    which the tally first met them. *)
Theorem top_users_spec vs :
  let top := top_users vs in
  length top = 5 `min` length (by_user (tallies vs))
  ∧ StronglySorted (λ a b : string * nat, snd b ≤ snd a) top
  ∧ (∀ u c, (u, c) ∈ top → c = tally_of user_label u vs ∧ 0 < c)
  ∧ (∀ u c u', (u, c) ∈ top →
               (u', tally_of user_label u' vs) ∉ top →
               tally_of user_label u' vs ≤ c)
  ∧ ∀ c, filter (λ kv : string * nat, snd kv = c) top
         `prefix_of` filter (λ kv : string * nat, snd kv = c)
                       (by_user (tallies vs)).
Proof.
  cbn zeta. unfold top_users.
  destruct (sorted_by_count_stable (by_user (tallies vs)))
    as (Hperm & Hsorted & Hstable).
  destruct (by_user_invariant vs) as (Hnd & Hpos & Hcount).
  assert (Hitems : ∀ k n, (k, n) ∈ by_user (tallies vs)
                          ↔ n = tally_of user_label k vs ∧ 0 < n).
  { intros k n. rewrite (elem_of_items_count _ _ _ Hnd Hpos), Hcount.
    split; intros [? ?]; split; congruence. }
  split; [|split; [|split; [|split]]].
  - rewrite length_take, Hperm. reflexivity.
  - apply StronglySorted_take. exact Hsorted.
  - intros u c Hin. apply Hitems. rewrite <- Hperm.
    exact (subseteq_take _ _ _ Hin).
  - intros u c u' Hin Hout.
    destruct (decide (0 < tally_of user_label u' vs)) as [Hgt|]; [|lia].
    assert (Hu' : (u', tally_of user_label u' vs)
                  ∈ sorted_by_count (by_user (tallies vs))).
    { rewrite Hperm. apply Hitems. auto. }
    rewrite <- (take_drop 5 (sorted_by_count (by_user (tallies vs)))) in Hu', Hsorted.
    apply elem_of_app in Hu' as [Hu'|Hu']; [tauto|].
    exact (StronglySorted_app_le _ _ _ _ _ Hsorted Hin Hu').
  - intros c. rewrite <- Hstable. apply filter_take_prefix.
Qed.

(** * Properties of [main] *)

Section main_facts.
Variable strptime : string → option Z.
Variable lower : string → string.
Variable clock : nat → Z.



End main_facts.

(** * Counts and the printed summary *)

(** ** Rules and counts *)

(** X9. No rule fires twice for one entry: the issues of its violations are
    pairwise different. *)
Theorem row_issues_NoDup
    clock (policy_roles : gmap string PolicyRole.t) duplicate_pairs
    stale_cutoff stale_days (r : AccessRow.t) (n : nat) :
  NoDup (Violation.issue <$> row_violations clock policy_roles duplicate_pairs
                               stale_cutoff stale_days r n).
Proof.
  eapply sublist_NoDup; [|apply rule_order_row_violations].
  unfold rule_order. repeat (apply NoDup_cons; split; [|]).
  all: try apply NoDup_nil_2.
  all: rewrite ?elem_of_cons, elem_of_nil; intros H; destruct_or?;
    try discriminate; assumption.
Qed.

Lemma tally_of_app key k vs1 vs2 :
  tally_of key k (vs1 ++ vs2) = tally_of key k vs1 + tally_of key k vs2.
Proof. unfold tally_of. rewrite filter_app, length_app. reflexivity. Qed.

Lemma tally_of_none key k vs :
  (∀ v, v ∈ vs → key v ≠ k) → tally_of key k vs = 0.
Proof.
  unfold tally_of. induction vs as [|v vs IH]; intros Hno; [reflexivity|].
  rewrite filter_cons. case_decide as Hv.
  - exfalso. exact (Hno v (list_elem_of_here _ _) Hv).
  - apply IH. intros v' Hv'. apply Hno. right. exact Hv'.
Qed.

Lemma unknown_role_count_row
    clock (policy_roles : gmap string PolicyRole.t) duplicate_pairs
    stale_cutoff stale_days (r : AccessRow.t) (n : nat) :
  tally_of Violation.issue "UNKNOWN_ROLE"
    (row_violations clock policy_roles duplicate_pairs stale_cutoff stale_days r n)
  = if decide (policy_roles !! AccessRow.role r = None) then 1 else 0.
Proof.
  rewrite row_violations_eq.
  destruct (policy_roles !! AccessRow.role r) as [policy|] eqn:Hrole.
  - rewrite decide_False by discriminate.
    apply tally_of_none. intros v Hv.
    apply elem_of_known_role_parts in Hv.
    rewrite elem_of_department_part, elem_of_status_part,
      elem_of_duplicate_part, elem_of_stale_part in Hv.
    destruct Hv as [(-> & ?)|[[(-> & ?)|(-> & ?)]|[(-> & ?)|(ll & ? & -> & ?)]]];
      discriminate.
  - rewrite decide_True by reflexivity. reflexivity.
Qed.

(** X10. A review reports as many UNKNOWN_ROLE violations as the batch has
    entries whose role is not a key of the catalog. *)
Theorem unknown_role_count clock (rows : list AccessRow.t)
    (policy_roles : gmap string PolicyRole.t) stale_days t0 vs :
  fst (review_access clock rows policy_roles stale_days t0) = Ok vs →
  tally_of Violation.issue "UNKNOWN_ROLE" vs
  = length (filter (λ r, policy_roles !! AccessRow.role r = None) rows).
Proof.
  rewrite review_access_unfold.
  destruct (cutoff_of (clock t0) stale_days) as [cutoff|e]; [|discriminate].
  intros [= <-]. generalize (find_duplicates rows) (S t0). intros dups.
  induction rows as [|r rows IH]; intros n; [reflexivity|].
  cbn [row_segments concat].
  rewrite tally_of_app, unknown_role_count_row, filter_cons, IH.
  case_decide; reflexivity.
Qed.


(** * Instances *)

Lemma review_access_violations_wellformed_witness :
  let r := AccessRow.mk "U2" "Bob" "finance" "ghost" "active" None in
  let v := unknown_role_violation r in
  (∃ r', r' ∈ [r] ∧ about r' v)
  ∧ (Violation.issue v, Violation.severity v)
    ∈ [("UNKNOWN_ROLE", "HIGH"); ("ROLE_NOT_ALLOWED_FOR_DEPARTMENT", "HIGH");
       ("INVALID_STATUS", "MEDIUM"); ("INACTIVE_USER_HAS_ACCESS", "HIGH");
       ("DUPLICATE_USER_ROLE_ENTRY", "LOW"); ("STALE_ACCOUNT", "LOW")].
Proof.
  intros r v.
  apply (review_access_violations_wellformed (λ _, day 738000) [r]
           example_catalog 90 0 [v] v).
  - vm_compute. reflexivity.
  - left.
Defined.

Lemma review_access_Permutation_witness :
  let r1 := AccessRow.mk "U2" "Bob" "finance" "ghost" "active" None in
  let r2 := AccessRow.mk "U4" "Eve" "ops" "viewer" "inactive" None in
  ∃ vs', fst (review_access (λ _, day 738000) [r2; r1] example_catalog 90 5)
         = Ok vs'
         ∧ [unknown_role_violation r1; inactive_violation r2] ≡ₚ vs'.
Proof.
  intros r1 r2.
  apply (review_access_Permutation (λ _, day 738000) [r1; r2] [r2; r1]
           example_catalog 90 0 5 (day 738000)).
  - reflexivity.
  - apply perm_swap.
  - vm_compute. reflexivity.
Defined.

Lemma stale_days_reported_witness :
  let r := AccessRow.mk "U7" "Dee" "ops" "viewer" "active" (Some (day 737000)) in
  let v := stale_violation r (day 738000) (day 737000) 90 in
  ∃ last_login,
    AccessRow.last_login r = Some last_login
    ∧ v = stale_violation r (day 738000) last_login 90
    ∧ ((day 738000 ≤ day 738000)%Z →
       (90 ≤ Py.diff_days (day 738000) last_login)%Z).
Proof.
  intros r v.
  apply (stale_days_reported (λ _, day 738000) example_catalog ∅
           (day 738000) 90 (day 737910) r 0 v).
  - vm_compute. reflexivity.
  - refine (bool_decide_unpack _ _). vm_compute. exact I.
  - reflexivity.
Defined.

Lemma stale_threshold_antitone_witness :
  let r := AccessRow.mk "U7" "Dee" "ops" "viewer" "active" (Some (day 737000)) in
  fires "STALE_ACCOUNT"
    (row_violations (λ _, day 738000) example_catalog ∅ (day 737910) 90 r 0).
Proof.
  intros r.
  apply (stale_threshold_antitone (λ _, day 738000) example_catalog ∅ ∅
           (day 738000) 90 120 (day 737910) (day 737880) r 0 0).
  - vm_compute. reflexivity.
  - vm_compute. reflexivity.
  - lia.
  - refine (bool_decide_unpack _ _). vm_compute. exact I.
Defined.

Lemma read_policy_roles_last_wins_witness :
  let roles : gmap string PolicyRole.t :=
    {["analyst" := PolicyRole.mk "analyst" {["ops"]} "second";
      "viewer" := PolicyRole.mk "viewer" {["*"]} ""]} in
  roles !! row_key (policy_row "analyst" "ops" "second")
  = Some (row_policy (policy_row "analyst" "ops" "second")).
Proof.
  intros roles.
  apply (read_policy_roles_last_wins "policy_roles.csv" policy_columns
           [policy_row "analyst" "finance" "first"]
           (policy_row "analyst" "ops" "second")
           [policy_row "viewer" "*" ""] roles).
  - vm_compute. reflexivity.
  - repeat constructor. vm_compute. discriminate.
Defined.

Lemma read_policy_roles_catalog_witness :
  let p := PolicyRole.mk "viewer" {["*"]} "" in
  "viewer" ≠ ""
  ∧ PolicyRole.role p = "viewer"
  ∧ ("" ∉ PolicyRole.allowed_departments p)
  ∧ ∃ row, row ∈ [policy_row " viewer " "*" ""] ∧ p = row_policy row.
Proof.
  intros p.
  refine (proj2 (read_policy_roles_catalog "policy_roles.csv" policy_columns
                   [policy_row " viewer " "*" ""] {["viewer" := p]} _)
            "viewer" p _).
  - vm_compute. reflexivity.
  - vm_compute. reflexivity.
Defined.

Lemma read_policy_roles_first_error_witness :
  read_policy_roles "policy_roles.csv" policy_columns
    ([policy_row "viewer" "*" ""] ++ policy_row "analyst" " " "" :: [])
  = Raise (ValueError "policy_roles.csv: line 3: department_allowed is empty").
Proof.
  refine (eq_trans
            (read_policy_roles_first_error "policy_roles.csv" policy_columns
               [policy_row "viewer" "*" ""] (policy_row "analyst" " " "") []
               _ _ _) _).
  - refine (bool_decide_unpack _ _). vm_compute. exact I.
  - repeat constructor.
    + eexists. vm_compute. reflexivity.
    + vm_compute. discriminate.
    + vm_compute. discriminate.
  - intros (_ & _ & Hspec). apply Hspec. vm_compute. reflexivity.
  - vm_compute. reflexivity.
Defined.

Lemma read_access_list_bad_date_witness :
  read_access_list (λ _, None) (λ s, s) "access_list.csv" access_columns
    ([access_row "U1" "Ann" "sales" "analyst" "active" ""]
     ++ access_row "U2" "Bob" "ops" "viewer" "active" "yesterday" :: [])
  = Raise (ValueError
             "access_list.csv: line 3: invalid date 'yesterday' (expected YYYY-MM-DD)").
Proof.
  refine (eq_trans
            (read_access_list_bad_date (λ _, None) (λ s, s) "access_list.csv"
               access_columns
               [access_row "U1" "Ann" "sales" "analyst" "active" ""]
               (access_row "U2" "Bob" "ops" "viewer" "active" "yesterday") []
               _ _ _) _).
  - refine (bool_decide_unpack _ _). vm_compute. exact I.
  - constructor; [|constructor]. split.
    + left. vm_compute. reflexivity.
    + repeat constructor; eexists; vm_compute; reflexivity.
  - intros [Hblank|[dt Hdt]]; [vm_compute in Hblank|]; discriminate.
  - vm_compute. reflexivity.
Defined.


Lemma unknown_role_count_witness :
  let r := AccessRow.mk "U2" "Bob" "finance" "ghost" "active" None in
  tally_of Violation.issue "UNKNOWN_ROLE" [unknown_role_violation r]
  = length (filter (λ r, example_catalog !! AccessRow.role r = None) [r]).
Proof.
  intros r.
  apply (unknown_role_count (λ _, day 738000) [r] example_catalog 90 0).
  vm_compute. reflexivity.
Defined.

(** * The rules as seen in the list a review returns *)

Lemma row_segments_Forall2 (Q : AccessRow.t → list Violation.t → Prop)
    clock (policy_roles : gmap string PolicyRole.t) duplicate_pairs
    stale_cutoff stale_days (rows : list AccessRow.t) :
  ∀ n,
    (∀ r m, r ∈ rows →
       Q r (row_violations clock policy_roles duplicate_pairs
              stale_cutoff stale_days r m)) →
    Forall2 Q rows
      (row_segments clock policy_roles duplicate_pairs
         stale_cutoff stale_days rows n).
Proof.
  induction rows as [|r rows IH]; intros n HQ; cbn [row_segments]; constructor.
  - apply HQ. left.
  - apply IH. intros r' m Hr'. apply HQ. right. exact Hr'.
Qed.

(** A review that returns has evaluated its entries one by one: the list
    is the concatenation, entry by entry, of lists each of which the loop
    body produced for that entry, with the duplicates of the batch and the
    cutoff of the first clock reading.  So what holds of every such list
    holds of the part of the returned list that belongs to an entry. *)
Lemma review_access_entries (Q : AccessRow.t → list Violation.t → Prop)
    clock (rows : list AccessRow.t) (policy_roles : gmap string PolicyRole.t)
    stale_days t0 vs :
  fst (review_access clock rows policy_roles stale_days t0) = Ok vs →
  (∀ r n, r ∈ rows →
     Q r (row_violations clock policy_roles (find_duplicates rows)
            (clock t0 - stale_days * Py.us_per_day)%Z stale_days r n)) →
  ∃ segs, vs = concat segs ∧ Forall2 Q rows segs.
Proof.
  rewrite review_access_unfold.
  destruct (cutoff_of (clock t0) stale_days) as [cutoff|e] eqn:Hcut;
    [|discriminate].
  apply cutoff_of_Ok in Hcut. subst cutoff.
  intros [= <-] HQ. eexists. split; [reflexivity|].
  apply row_segments_Forall2. exact HQ.
Qed.

Lemma filter_none {A} (P : A → Prop) `{∀ x, Decision (P x)} (l : list A) :
  (∀ x, x ∈ l → ¬ P x) → filter P l = [].
Proof.
  induction l as [|x l IH]; intros Hno; [reflexivity|].
  rewrite filter_cons. case_decide as Hx.
  - exfalso. exact (Hno x (list_elem_of_here _ _) Hx).
  - apply IH. intros y Hy. apply Hno. right. exact Hy.
Qed.

Lemma filter_all {A} (P : A → Prop) `{∀ x, Decision (P x)} (l : list A) :
  (∀ x, x ∈ l → P x) → filter P l = l.
Proof.
  induction l as [|x l IH]; intros Hall; [reflexivity|].
  rewrite filter_cons. case_decide as Hx.
  - f_equal. apply IH. intros y Hy. apply Hall. right. exact Hy.
  - exfalso. apply Hx, Hall. left.
Qed.

Lemma fires_elem_of i vs : fires i vs ↔ i ∈ Violation.issue <$> vs.
Proof.
  unfold fires. rewrite list_elem_of_fmap. split.
  - intros (v & Hv & <-). eauto.
  - intros (v & -> & Hv). eauto.
Qed.

(** When no issue occurs twice in a list, an issue is counted once if it
    fires and not at all otherwise. *)
Lemma tally_of_issue_NoDup i vs :
  NoDup (Violation.issue <$> vs) →
  tally_of Violation.issue i vs = if decide (fires i vs) then 1 else 0.
Proof.
  unfold tally_of. induction vs as [|v vs IH]; cbn [fmap list_fmap]; intros Hnd.
  - rewrite decide_False; [reflexivity|]. rewrite fires_nil. tauto.
  - apply NoDup_cons in Hnd as [Hv Hnd]. rewrite filter_cons.
    destruct (decide (Violation.issue v = i)) as [<-|Hne];
      cbn [length]; rewrite (IH Hnd).
    + rewrite (decide_False (P := fires _ vs))
        by (rewrite fires_elem_of; exact Hv).
      rewrite decide_True; [reflexivity|]. apply fires_cons. left. reflexivity.
    + destruct (decide (fires i vs)) as [Hf|Hf].
      * rewrite decide_True; [reflexivity|]. apply fires_cons. right. exact Hf.
      * rewrite decide_False; [reflexivity|]. rewrite fires_cons. tauto.
Qed.

Lemma issues_NoDup_row
    clock (policy_roles : gmap string PolicyRole.t) duplicate_pairs
    stale_cutoff stale_days (r : AccessRow.t) (n : nat) :
  NoDup (Violation.issue <$> row_violations clock policy_roles duplicate_pairs
                               stale_cutoff stale_days r n).
Proof.
  eapply sublist_NoDup; [|apply rule_order_row_violations].
  unfold rule_order. repeat (apply NoDup_cons; split; [|]).
  all: try apply NoDup_nil_2.
  all: rewrite ?elem_of_cons, elem_of_nil; intros H; destruct_or?;
    try discriminate; assumption.
Qed.

(** Counting a rule over the entries: when each entry's list has no issue
    twice and holds issue [i] exactly when [P] holds of the entry, the
    list holds as many violations of issue [i] as there are entries with
    [P]. *)
Lemma tally_of_issue_entries i (P : AccessRow.t → Prop) `{∀ r, Decision (P r)}
    (rows : list AccessRow.t) (segs : list (list Violation.t)) :
  Forall2 (λ r seg, NoDup (Violation.issue <$> seg) ∧ (fires i seg ↔ P r))
    rows segs →
  tally_of Violation.issue i (concat segs) = length (filter P rows).
Proof.
  induction 1 as [|r seg rows segs [Hnd Hiff] _ IH]; [reflexivity|].
  cbn [concat]. rewrite tally_of_app, IH, filter_cons.
  rewrite (tally_of_issue_NoDup _ _ Hnd).
  destruct (decide (P r)) as [HP|HP].
  - rewrite decide_True by tauto. reflexivity.
  - rewrite decide_False by tauto. reflexivity.
Qed.

(** ** Rule conditions of the loop body *)

Lemma stale_fires_row
    clock (policy_roles : gmap string PolicyRole.t) duplicate_pairs
    stale_cutoff stale_days (r : AccessRow.t) (n : nat) :
  fires "STALE_ACCOUNT"
    (row_violations clock policy_roles duplicate_pairs stale_cutoff stale_days r n)
  ↔ stale_entry policy_roles stale_cutoff r.
Proof.
  rewrite fires_row_violations. unfold stale_entry.
  destruct (policy_roles !! AccessRow.role r) as [policy|].
  - split.
    + intros [(? & _)|[(? & _)|[(? & _)|[(? & _)|(_ & ll & ? & ? & ?)]]]];
        try discriminate.
      split; [eauto|]. split; [assumption|]. eauto.
    + intros (_ & Hact & ll & Hll & Hlt). do 4 right. eauto 10.
  - split; [discriminate|]. intros ([? [=]] & _).
Qed.

Lemma department_fires_row
    clock (policy_roles : gmap string PolicyRole.t) duplicate_pairs
    stale_cutoff stale_days (r : AccessRow.t) (n : nat) :
  fires "ROLE_NOT_ALLOWED_FOR_DEPARTMENT"
    (row_violations clock policy_roles duplicate_pairs stale_cutoff stale_days r n)
  ↔ department_refused policy_roles r.
Proof.
  rewrite fires_row_violations. unfold department_refused.
  destruct (policy_roles !! AccessRow.role r) as [policy|].
  - split.
    + intros [(_ & ? & ?)|[(? & _)|[(? & _)|[(? & _)|(? & _)]]]];
        try discriminate.
      exists policy. auto.
    + intros (policy' & [= <-] & ? & ?). left. auto.
  - split; [discriminate|]. intros (? & [=] & _).
Qed.

Lemma issue_severity_row
    clock (policy_roles : gmap string PolicyRole.t) duplicate_pairs
    stale_cutoff stale_days (r : AccessRow.t) (n : nat) v i s :
  v ∈ row_violations clock policy_roles duplicate_pairs stale_cutoff stale_days r n →
  Violation.issue v = i →
  (i, s) ∈ [("UNKNOWN_ROLE", "HIGH"); ("ROLE_NOT_ALLOWED_FOR_DEPARTMENT", "HIGH");
            ("INVALID_STATUS", "MEDIUM"); ("INACTIVE_USER_HAS_ACCESS", "HIGH");
            ("DUPLICATE_USER_ROLE_ENTRY", "LOW"); ("STALE_ACCOUNT", "LOW")] →
  Violation.severity v = s.
Proof.
  intros Hv <- Hs. apply severity_row_violations in Hv.
  rewrite !elem_of_cons, elem_of_nil in Hv, Hs.
  destruct_or?; try tauto;
    repeat match goal with
           | H : (_, _) = (_, _) |- _ => injection H as ? ?
           end; congruence.
Qed.

Lemma status_fires_row
    clock (policy_roles : gmap string PolicyRole.t) duplicate_pairs
    stale_cutoff stale_days (r : AccessRow.t) (n : nat) :
  let vs := row_violations clock policy_roles duplicate_pairs
              stale_cutoff stale_days r n in
  ¬ (fires "INVALID_STATUS" vs ∧ fires "INACTIVE_USER_HAS_ACCESS" vs)
  ∧ (AccessRow.status r ≠ "active" ∧ AccessRow.status r ≠ "inactive" →
     ¬ fires "INACTIVE_USER_HAS_ACCESS" vs)
  ∧ (fires "INACTIVE_USER_HAS_ACCESS" vs
     ↔ is_Some (policy_roles !! AccessRow.role r)
       ∧ AccessRow.status r = "inactive")
  ∧ (fires "INVALID_STATUS" vs
     ↔ is_Some (policy_roles !! AccessRow.role r)
       ∧ AccessRow.status r ≠ "active" ∧ AccessRow.status r ≠ "inactive").
Proof.
  intros vs. subst vs. rewrite !fires_row_violations.
  destruct (policy_roles !! AccessRow.role r) as [policy|].
  - assert (Hsome : is_Some (Some policy)) by eauto.
    split; [|split; [|split]].
    + intros [[(? & _)|[(_ & ? & ?)|[(? & _)|[(? & _)|(? & _)]]]]
              [(? & _)|[(? & _)|[(_ & ?)|[(? & _)|(? & _)]]]]];
        try discriminate; congruence.
    + intros [? ?] [(? & _)|[(? & _)|[(_ & ?)|[(? & _)|(? & _)]]]];
        try discriminate; congruence.
    + split.
      * intros [(? & _)|[(? & _)|[(_ & ?)|[(? & _)|(? & _)]]]];
          try discriminate; tauto.
      * intros (_ & ?). eauto 10.
    + split.
      * intros [(? & _)|[(_ & ? & ?)|[(? & _)|[(? & _)|(? & _)]]]];
          try discriminate; tauto.
      * intros (_ & ? & ?). eauto 10.
  - split; [|split; [|split]].
    + intros [? _]. discriminate.
    + intros _ ?. discriminate.
    + split; [discriminate|]. intros ([? [=]] & _).
    + split; [discriminate|]. intros ([? [=]] & _).
Qed.

Lemma about_same_entry r r' v : about r' v → (about r v ↔ same_entry r r').
Proof.
  unfold about, same_entry. intros (H1 & H2 & H3 & H4).
  rewrite H1, H2, H3, H4. tauto.
Qed.

Lemma violation_of_same_entry r r' issue severity details :
  same_entry r r' →
  violation_of r' issue severity details = violation_of r issue severity details.
Proof.
  unfold same_entry, violation_of. intros (-> & -> & -> & ->). reflexivity.
Qed.

(** ** The claims on the returned list *)

(** C1. In the list a review returns, the part that belongs to an entry
    whose role has no key in the policy catalog is exactly one violation,
    UNKNOWN_ROLE with severity HIGH, copied from the entry: no other rule
    has fired for it.  Read off the list alone: the violations that copy
    such an entry are that violation, once for each entry of the batch with
    the same user_id, user_name, department and role. *)
Theorem unknown_role_single_violation clock (rows : list AccessRow.t)
    (policy_roles : gmap string PolicyRole.t) stale_days t0 vs :
  fst (review_access clock rows policy_roles stale_days t0) = Ok vs →
  (∃ segs,
     vs = concat segs
     ∧ Forall2 (λ r seg,
                  (∀ v, v ∈ seg → about r v)
                  ∧ (policy_roles !! AccessRow.role r = None →
                     seg = [violation_of r "UNKNOWN_ROLE" "HIGH"
                              "Role not found in policy catalog."]))
         rows segs)
  ∧ ∀ r, r ∈ rows → policy_roles !! AccessRow.role r = None →
      filter (about r) vs
      = replicate (length (filter (same_entry r) rows))
          (violation_of r "UNKNOWN_ROLE" "HIGH"
             "Role not found in policy catalog.").
Proof.
  intros Hrun.
  destruct (review_access_entries
              (λ r seg,
                 (∀ v, v ∈ seg → about r v)
                 ∧ (policy_roles !! AccessRow.role r = None →
                    seg = [violation_of r "UNKNOWN_ROLE" "HIGH"
                             "Role not found in policy catalog."]))
              _ _ _ _ _ _ Hrun) as (segs & -> & Hsegs).
  { intros r n _. split.
    - intros v. apply about_row_violations.
    - intros Hnone. rewrite row_violations_eq, Hnone. reflexivity. }
  split; [exists segs; split; [reflexivity|exact Hsegs]|].
  intros r _ Hnone. clear Hrun.
  induction Hsegs as [|r' seg rows segs [Habout Hunk] _ IH]; [reflexivity|].
  cbn [concat]. rewrite filter_app, IH, filter_cons. clear IH.
  destruct (decide (same_entry r r')) as [Hsame|Hdiff].
  - assert (Hrole : policy_roles !! AccessRow.role r' = None).
    { destruct Hsame as (_ & _ & _ & ->). exact Hnone. }
    rewrite (Hunk Hrole), (violation_of_same_entry r r' _ _ _ Hsame).
    rewrite filter_cons, filter_nil, decide_True; [reflexivity|].
    repeat split.
  - rewrite filter_none; [reflexivity|].
    intros v Hv Hr. apply Hdiff.
    apply (about_same_entry r r' v (Habout v Hv)). exact Hr.
Qed.

Lemma unknown_role_single_violation_witness :
  let r1 := AccessRow.mk "U2" "Bob" "finance" "ghost" "inactive" None in
  let r2 := AccessRow.mk "U4" "Eve" "ops" "viewer" "active" None in
  let vs := [violation_of r1 "UNKNOWN_ROLE" "HIGH"
               "Role not found in policy catalog."] in
  filter (about r1) vs
  = replicate (length (filter (same_entry r1) [r1; r2]))
      (violation_of r1 "UNKNOWN_ROLE" "HIGH" "Role not found in policy catalog.").
Proof.
  intros r1 r2 vs.
  refine (proj2 (unknown_role_single_violation (λ _, day 738000) [r1; r2]
                   example_catalog 90 0 vs _) r1 _ _).
  - vm_compute. reflexivity.
  - left.
  - vm_compute. reflexivity.
Defined.

(** C2. In the list a review returns, the part that belongs to an entry
    holds a STALE_ACCOUNT violation exactly when the entry's role is a key
    of the catalog, its status is ["active"], and its last login is present
    and strictly earlier than the reference instant, the clock reading the
    review starts with, minus [stale_days] days.  Its severity is LOW, and
    an entry without last login never has one.  The list therefore holds as
    many STALE_ACCOUNT violations as the batch has such entries. *)
Theorem stale_account_iff clock (rows : list AccessRow.t)
    (policy_roles : gmap string PolicyRole.t) stale_days t0 vs :
  fst (review_access clock rows policy_roles stale_days t0) = Ok vs →
  let stale_cutoff := (clock t0 - stale_days * Py.us_per_day)%Z in
  (∃ segs,
     vs = concat segs
     ∧ Forall2 (λ r seg,
                  (∀ v, v ∈ seg → about r v)
                  ∧ (fires "STALE_ACCOUNT" seg
                     ↔ is_Some (policy_roles !! AccessRow.role r)
                       ∧ AccessRow.status r = "active"
                       ∧ ∃ last_login,
                           AccessRow.last_login r = Some last_login
                           ∧ (last_login < stale_cutoff)%Z)
                  ∧ (∀ v, v ∈ seg → Violation.issue v = "STALE_ACCOUNT" →
                          Violation.severity v = "LOW")
                  ∧ (AccessRow.last_login r = None →
                     ¬ fires "STALE_ACCOUNT" seg))
         rows segs)
  ∧ tally_of Violation.issue "STALE_ACCOUNT" vs
    = length (filter (stale_entry policy_roles stale_cutoff) rows).
Proof.
  intros Hrun stale_cutoff. split.
  - apply (review_access_entries _ _ _ _ _ _ _ Hrun).
    intros r n _. fold stale_cutoff. split; [|split; [|split]].
    + intros v. apply about_row_violations.
    + apply stale_fires_row.
    + intros v Hv Hi. apply (issue_severity_row _ _ _ _ _ _ _ _ _ _ Hv Hi).
      do 5 right. left.
    + intros Hnone Hf. apply stale_fires_row in Hf as (_ & _ & ll & Hll & _).
      congruence.
  - destruct (review_access_entries
                (λ r seg, NoDup (Violation.issue <$> seg)
                          ∧ (fires "STALE_ACCOUNT" seg
                             ↔ stale_entry policy_roles stale_cutoff r))
                _ _ _ _ _ _ Hrun) as (segs & -> & Hsegs).
    { intros r n _. split; [apply issues_NoDup_row|apply stale_fires_row]. }
    apply tally_of_issue_entries. exact Hsegs.
Qed.

Lemma stale_account_iff_witness :
  let r := AccessRow.mk "U7" "Dee" "ops" "viewer" "active" (Some (day 737000)) in
  let vs := [stale_violation r (day 738000) (day 737000) 90] in
  tally_of Violation.issue "STALE_ACCOUNT" vs
  = length (filter (stale_entry example_catalog
                      (day 738000 - 90 * Py.us_per_day)%Z) [r]).
Proof.
  intros r vs.
  refine (proj2 (stale_account_iff (λ _, day 738000) [r] example_catalog
                   90 0 vs _)).
  vm_compute. reflexivity.
Defined.

(** C3. In the list a review returns, the part that belongs to an entry
    whose role is a key of the catalog holds a
    ROLE_NOT_ALLOWED_FOR_DEPARTMENT violation exactly when the matched
    policy's allowed set contains neither the sentinel ["*"] nor the
    entry's department; its severity is HIGH.  The list therefore holds as
    many such violations as the batch has entries refused in this way. *)
Theorem role_not_allowed_iff clock (rows : list AccessRow.t)
    (policy_roles : gmap string PolicyRole.t) stale_days t0 vs :
  fst (review_access clock rows policy_roles stale_days t0) = Ok vs →
  (∃ segs,
     vs = concat segs
     ∧ Forall2 (λ r seg,
                  (∀ v, v ∈ seg → about r v)
                  ∧ (∀ policy,
                       policy_roles !! AccessRow.role r = Some policy →
                       (fires "ROLE_NOT_ALLOWED_FOR_DEPARTMENT" seg
                        ↔ ("*" ∉ PolicyRole.allowed_departments policy)
                          ∧ (AccessRow.department r
                             ∉ PolicyRole.allowed_departments policy)))
                  ∧ (∀ v, v ∈ seg →
                          Violation.issue v = "ROLE_NOT_ALLOWED_FOR_DEPARTMENT" →
                          Violation.severity v = "HIGH"))
         rows segs)
  ∧ tally_of Violation.issue "ROLE_NOT_ALLOWED_FOR_DEPARTMENT" vs
    = length (filter (department_refused policy_roles) rows).
Proof.
  intros Hrun. split.
  - apply (review_access_entries _ _ _ _ _ _ _ Hrun).
    intros r n _. split; [|split].
    + intros v. apply about_row_violations.
    + intros policy Hpol. rewrite department_fires_row.
      unfold department_refused. rewrite Hpol. split.
      * intros (policy' & [= <-] & H). exact H.
      * intros H. exists policy. tauto.
    + intros v Hv Hi. apply (issue_severity_row _ _ _ _ _ _ _ _ _ _ Hv Hi).
      right. left.
  - destruct (review_access_entries
                (λ r seg, NoDup (Violation.issue <$> seg)
                          ∧ (fires "ROLE_NOT_ALLOWED_FOR_DEPARTMENT" seg
                             ↔ department_refused policy_roles r))
                _ _ _ _ _ _ Hrun) as (segs & -> & Hsegs).
    { intros r n _. split; [apply issues_NoDup_row|apply department_fires_row]. }
    apply tally_of_issue_entries. exact Hsegs.
Qed.

Lemma role_not_allowed_iff_witness :
  let r := AccessRow.mk "U1" "Ann" "sales" "analyst" "active" None in
  let vs := [department_violation r
               (PolicyRole.mk "analyst" {["finance"; "ops"]} "")] in
  tally_of Violation.issue "ROLE_NOT_ALLOWED_FOR_DEPARTMENT" vs
  = length (filter (department_refused example_catalog) [r]).
Proof.
  intros r vs.
  refine (proj2 (role_not_allowed_iff (λ _, day 738000) [r] example_catalog
                   90 0 vs _)).
  vm_compute. reflexivity.
Defined.

(** C5, amended. INVALID_STATUS and INACTIVE_USER_HAS_ACCESS never both
    fire for one entry; a status other than ["active"] and ["inactive"]
    excludes INACTIVE_USER_HAS_ACCESS; and for an entry whose role is a key
    of the catalog INACTIVE_USER_HAS_ACCESS fires exactly when the status
    is ["inactive"], INVALID_STATUS exactly when it is neither.  This holds
    of what the loop body produces for an entry, and so of the part that
    belongs to each entry in the list a review returns. *)
Theorem status_rules_exclusive
    clock (policy_roles : gmap string PolicyRole.t) duplicate_pairs
    stale_cutoff stale_days (r : AccessRow.t) (n : nat) :
  let vs := row_violations clock policy_roles duplicate_pairs
              stale_cutoff stale_days r n in
  ¬ (fires "INVALID_STATUS" vs ∧ fires "INACTIVE_USER_HAS_ACCESS" vs)
  ∧ (AccessRow.status r ≠ "active" ∧ AccessRow.status r ≠ "inactive" →
     ¬ fires "INACTIVE_USER_HAS_ACCESS" vs)
  ∧ (fires "INACTIVE_USER_HAS_ACCESS" vs
     ↔ is_Some (policy_roles !! AccessRow.role r)
       ∧ AccessRow.status r = "inactive")
  ∧ (fires "INVALID_STATUS" vs
     ↔ is_Some (policy_roles !! AccessRow.role r)
       ∧ AccessRow.status r ≠ "active" ∧ AccessRow.status r ≠ "inactive")
  ∧ ∀ (rows : list AccessRow.t) t0 out,
      fst (review_access clock rows policy_roles stale_days t0) = Ok out →
      ∃ segs,
        out = concat segs
        ∧ Forall2
            (λ r seg,
               (∀ v, v ∈ seg → about r v)
               ∧ ¬ (fires "INVALID_STATUS" seg
                    ∧ fires "INACTIVE_USER_HAS_ACCESS" seg)
               ∧ (AccessRow.status r ≠ "active"
                  ∧ AccessRow.status r ≠ "inactive" →
                  ¬ fires "INACTIVE_USER_HAS_ACCESS" seg)
               ∧ (fires "INACTIVE_USER_HAS_ACCESS" seg
                  ↔ is_Some (policy_roles !! AccessRow.role r)
                    ∧ AccessRow.status r = "inactive")
               ∧ (fires "INVALID_STATUS" seg
                  ↔ is_Some (policy_roles !! AccessRow.role r)
                    ∧ AccessRow.status r ≠ "active"
                    ∧ AccessRow.status r ≠ "inactive"))
            rows segs.
Proof.
  intros vs. subst vs.
  destruct (status_fires_row clock policy_roles duplicate_pairs
              stale_cutoff stale_days r n) as (H1 & H2 & H3 & H4).
  split; [exact H1|]. split; [exact H2|]. split; [exact H3|].
  split; [exact H4|].
  intros rows t0 out Hrun.
  apply (review_access_entries _ _ _ _ _ _ _ Hrun).
  intros r' m _. split.
  - intros v. apply about_row_violations.
  - apply status_fires_row.
Qed.

(** ** Clock readings and repeated runs *)

Lemma Forall2_same {A} (R : A → A → Prop) (l : list A) :
  (∀ x, R x x) → Forall2 R l l.
Proof. intros HR. induction l; constructor; auto. Qed.

Lemma row_violations_same_but_days
    clock clock' (policy_roles : gmap string PolicyRole.t) duplicate_pairs
    stale_cutoff stale_days (r : AccessRow.t) (n n' : nat) :
  Forall2 same_but_days
    (row_violations clock policy_roles duplicate_pairs stale_cutoff stale_days r n)
    (row_violations clock' policy_roles duplicate_pairs stale_cutoff stale_days r n').
Proof.
  rewrite !row_violations_eq.
  assert (Hrefl : ∀ v, same_but_days v v) by (intros v; left; reflexivity).
  destruct (policy_roles !! AccessRow.role r) as [policy|];
    [|apply Forall2_same; exact Hrefl].
  unfold known_role_parts, stale_part.
  destruct (AccessRow.last_login r) as [ll|]; [|apply Forall2_same; exact Hrefl].
  case_decide; [|apply Forall2_same; exact Hrefl].
  repeat (apply Forall2_app; [apply Forall2_same; exact Hrefl|]).
  constructor; [|constructor]. right. split; [reflexivity|].
  repeat split.
Qed.

Lemma row_segments_same_but_days
    clock clock' (policy_roles : gmap string PolicyRole.t) duplicate_pairs
    stale_cutoff stale_days (rows : list AccessRow.t) :
  ∀ n n',
    Forall2 same_but_days
      (concat (row_segments clock policy_roles duplicate_pairs
                 stale_cutoff stale_days rows n))
      (concat (row_segments clock' policy_roles duplicate_pairs
                 stale_cutoff stale_days rows n')).
Proof.
  induction rows as [|r rows IH]; intros n n'; cbn [row_segments concat].
  - constructor.
  - apply Forall2_app; [|apply IH].
    apply row_violations_same_but_days.
Qed.

(** C7, amended. A pass reads the clock once for the cutoff and once
    more for each STALE_ACCOUNT violation it reports, whatever the clock
    shows (once in all when it raises).  Two runs over the same entries,
    catalog and threshold that start from the same reference reading both
    raise the same error or return lists that agree violation by
    violation, except possibly in the details of STALE_ACCOUNT violations;
    and when every reading of the clock shows the same instant the two
    results are the same, details included. *)
Theorem review_access_frozen_clock clock (rows : list AccessRow.t)
    (policy_roles : gmap string PolicyRole.t) stale_days t0 :
  snd (review_access clock rows policy_roles stale_days t0)
  = match fst (review_access clock rows policy_roles stale_days t0) with
    | Ok vs => S t0 + stale_violations vs
    | Raise _ => S t0
    end
  ∧ (∀ clock' t0',
       clock' t0' = clock t0 →
       match fst (review_access clock rows policy_roles stale_days t0),
             fst (review_access clock' rows policy_roles stale_days t0') with
       | Ok vs, Ok vs' => Forall2 same_but_days vs vs'
       | Raise e, Raise e' => e = e'
       | _, _ => False
       end)
  ∧ (∀ clock' t0' now,
       (∀ n, clock n = now) →
       (∀ n, clock' n = now) →
       fst (review_access clock rows policy_roles stale_days t0)
       = fst (review_access clock' rows policy_roles stale_days t0')).
Proof.
  split; [|split].
  - rewrite review_access_unfold.
    destruct (cutoff_of (clock t0) stale_days) as [cutoff|e]; [|reflexivity].
    cbn [fst snd]. apply rows_ticks_stale.
  - intros clock' t0' Href. rewrite !review_access_unfold, Href.
    destruct (cutoff_of (clock t0) stale_days) as [cutoff|e]; cbn [fst].
    + apply row_segments_same_but_days.
    + reflexivity.
  - intros clock' t0' now Hclock Hclock'. rewrite !review_access_unfold.
    rewrite Hclock, Hclock'.
    destruct (cutoff_of now stale_days) as [cutoff|e]; [|reflexivity].
    cbn [fst].
    rewrite (row_segments_frozen _ _ _ _ _ now clock _ Hclock).
    rewrite (row_segments_frozen _ _ _ _ _ now clock' _ Hclock').
    reflexivity.
Qed.

Lemma review_access_frozen_clock_witness :
  let now := (738000 * Py.us_per_day)%Z in
  let r := AccessRow.mk "U7" "Dee" "ops" "viewer" "active"
             (Some (737000 * Py.us_per_day)%Z) in
  let policy_roles : gmap string PolicyRole.t :=
    {["viewer" := PolicyRole.mk "viewer" {["*"]} ""]} in
  fst (review_access (λ _, now) [r] policy_roles 90 0)
  = fst (review_access (λ _, now) [r] policy_roles 90 2).
Proof.
  intros now r policy_roles.
  refine (proj2 (proj2 (review_access_frozen_clock (λ _, now) [r]
                          policy_roles 90 0))
            (λ _, now) 2 now _ _); reflexivity.
Defined.

Lemma length_filter_pos {A} (P : A → Prop) `{∀ x, Decision (P x)} (l : list A) x :
  x ∈ l → P x → 1 ≤ length (filter P l).
Proof.
  intros Hx HP.
  assert (Hin : x ∈ filter P l) by (apply list_elem_of_filter; auto).
  destruct (filter P l); [inversion Hin|cbn; lia].
Qed.

(** X3. A review returns at most three violations per entry: the list has
    at most three times as many violations as the batch has entries, and
    the part of it that belongs to any one entry has at most three. *)
Theorem review_access_length clock (rows : list AccessRow.t)
    (policy_roles : gmap string PolicyRole.t) stale_days t0 vs :
  fst (review_access clock rows policy_roles stale_days t0) = Ok vs →
  length vs ≤ 3 * length rows
  ∧ ∃ segs,
      vs = concat segs
      ∧ Forall2 (λ r seg, (∀ v, v ∈ seg → about r v) ∧ length seg ≤ 3)
          rows segs.
Proof.
  intros Hrun. split.
  - rewrite review_access_unfold in Hrun.
    destruct (cutoff_of (clock t0) stale_days) as [cutoff|e]; [|discriminate].
    injection Hrun as <-. apply length_concat_segments.
  - apply (review_access_entries _ _ _ _ _ _ _ Hrun).
    intros r n _. split.
    + intros v. apply about_row_violations.
    + apply row_violations_at_most_three.
Qed.

Lemma review_access_length_witness :
  let r := AccessRow.mk "U2" "Bob" "finance" "ghost" "active" None in
  length [unknown_role_violation r] ≤ 3 * length [r].
Proof.
  intros r.
  refine (proj1 (review_access_length (λ _, day 738000) [r] example_catalog
                   90 0 [unknown_role_violation r] _)).
  vm_compute. reflexivity.
Defined.

(** X15. An entry with an empty department is flagged for every role of a
    loaded catalog that does not allow all departments: the loop body
    produces ROLE_NOT_ALLOWED_FOR_DEPARTMENT for it, and a review of any
    batch that contains it returns that violation in the part of the list
    that belongs to it. *)
Theorem empty_department_flagged path fieldnames reader clock
    (policy_roles : gmap string PolicyRole.t) duplicate_pairs
    stale_cutoff stale_days (r : AccessRow.t) (n : nat) policy :
  read_policy_roles path fieldnames reader = Ok policy_roles →
  policy_roles !! AccessRow.role r = Some policy →
  AccessRow.department r = "" →
  "*" ∉ PolicyRole.allowed_departments policy →
  fires "ROLE_NOT_ALLOWED_FOR_DEPARTMENT"
    (row_violations clock policy_roles duplicate_pairs
       stale_cutoff stale_days r n)
  ∧ ∀ (rows : list AccessRow.t) t0 vs,
      r ∈ rows →
      fst (review_access clock rows policy_roles stale_days t0) = Ok vs →
      1 ≤ tally_of Violation.issue "ROLE_NOT_ALLOWED_FOR_DEPARTMENT" vs
      ∧ ∃ segs,
          vs = concat segs
          ∧ Forall2 (λ r' seg,
                       (∀ v, v ∈ seg → about r' v)
                       ∧ (r' = r →
                          fires "ROLE_NOT_ALLOWED_FOR_DEPARTMENT" seg))
              rows segs.
Proof.
  intros Hload Hpol Hdep Hstar.
  apply read_policy_roles_Ok_inv in Hload as (_ & _ & ->).
  assert (Hrefused : department_refused (store_rows reader ∅) r).
  { exists policy. split; [exact Hpol|]. split; [exact Hstar|].
    rewrite Hdep.
    apply store_rows_lookup in Hpol as [Hpol|(row & _ & _ & ->)].
    - rewrite lookup_empty in Hpol. discriminate.
    - apply empty_not_in_allowed_departments_of. }
  split; [apply department_fires_row; exact Hrefused|].
  intros rows t0 vs Hr Hrun. split.
  - destruct (review_access_entries
                (λ r seg, NoDup (Violation.issue <$> seg)
                          ∧ (fires "ROLE_NOT_ALLOWED_FOR_DEPARTMENT" seg
                             ↔ department_refused (store_rows reader ∅) r))
                _ _ _ _ _ _ Hrun) as (segs & -> & Hsegs).
    { intros r' m _.
      split; [apply issues_NoDup_row|apply department_fires_row]. }
    rewrite (tally_of_issue_entries _ _ _ _ Hsegs).
    exact (length_filter_pos _ _ r Hr Hrefused).
  - apply (review_access_entries _ _ _ _ _ _ _ Hrun).
    intros r' m _. split.
    + intros v. apply about_row_violations.
    + intros ->. apply department_fires_row. exact Hrefused.
Qed.

Lemma empty_department_flagged_witness :
  let r := AccessRow.mk "U9" "Flo" "" "analyst" "active" None in
  fires "ROLE_NOT_ALLOWED_FOR_DEPARTMENT"
    (row_violations (λ _, day 738000)
       {["analyst" := PolicyRole.mk "analyst" {["finance"]} ""]} ∅ 0 90 r 0).
Proof.
  intros r.
  refine (proj1 (empty_department_flagged "policy_roles.csv" policy_columns
                   [policy_row "analyst" "finance" ""] (λ _, day 738000)
                   {["analyst" := PolicyRole.mk "analyst" {["finance"]} ""]}
                   ∅ 0 90 r 0
                   (PolicyRole.mk "analyst" {["finance"]} "") _ _ _ _)).
  - vm_compute. reflexivity.
  - vm_compute. reflexivity.
  - reflexivity.
  - refine (bool_decide_unpack _ _). vm_compute. exact I.
Defined.

Section blank_last_login.
Variable strptime : string → option Z.
Variable lower : string → string.

(** X18. Loading then reviewing: a row whose last login is blank loads as
    an entry with [last_login] [None]; the loop body never reports that
    entry stale, and in the list a review of the loaded batch returns the
    part that belongs to it holds no STALE_ACCOUNT violation. *)
Theorem blank_last_login_never_stale path fieldnames reader rows i row
    clock (policy_roles : gmap string PolicyRole.t) duplicate_pairs
    stale_cutoff stale_days n :
  read_access_list strptime lower path fieldnames reader = Ok rows →
  reader !! i = Some row →
  row_last_login row = "" →
  ∃ r, rows !! i = Some r
       ∧ AccessRow.last_login r = None
       ∧ ¬ fires "STALE_ACCOUNT"
             (row_violations clock policy_roles duplicate_pairs
                stale_cutoff stale_days r n)
       ∧ ∀ t0 vs,
           fst (review_access clock rows policy_roles stale_days t0) = Ok vs →
           ∃ segs,
             vs = concat segs
             ∧ Forall2 (λ r' seg, ∀ v, v ∈ seg → about r' v) rows segs
             ∧ ∃ seg, segs !! i = Some seg ∧ ¬ fires "STALE_ACCOUNT" seg.
Proof.
  intros Hload Hrow Hblank.
  apply read_access_list_Ok_inv in Hload as (_ & _ & ->).
  set (r := access_row_of strptime lower row).
  assert (Hr : (access_row_of strptime lower <$> reader) !! i = Some r)
    by (rewrite list_lookup_fmap, Hrow; reflexivity).
  assert (Hnone : AccessRow.last_login r = None).
  { subst r. unfold access_row_of. cbn [AccessRow.last_login].
    rewrite decide_True by exact Hblank. reflexivity. }
  assert (Hnever : ∀ clock policy_roles duplicate_pairs stale_cutoff stale_days
                     (r' : AccessRow.t) m,
             AccessRow.last_login r' = None →
             ¬ fires "STALE_ACCOUNT"
                 (row_violations clock policy_roles duplicate_pairs
                    stale_cutoff stale_days r' m)).
  { intros c p d sc sd r' m Hn Hf.
    apply stale_fires_row in Hf as (_ & _ & ll & Hll & _). congruence. }
  exists r. split; [exact Hr|]. split; [exact Hnone|].
  split; [apply Hnever; exact Hnone|].
  intros t0 vs Hrun.
  destruct (review_access_entries
              (λ r' seg, (∀ v, v ∈ seg → about r' v)
                         ∧ (AccessRow.last_login r' = None →
                            ¬ fires "STALE_ACCOUNT" seg))
              _ _ _ _ _ _ Hrun) as (segs & -> & Hsegs).
  { intros r' m _. split.
    - intros v. apply about_row_violations.
    - apply Hnever. }
  exists segs. split; [reflexivity|]. split.
  - eapply Forall2_impl; [exact Hsegs|]. intros r' seg [Ha _]. exact Ha.
  - destruct (Forall2_lookup_l _ _ _ _ _ Hsegs Hr) as (seg & Hseg & _ & Hno).
    exists seg. split; [exact Hseg|]. apply Hno. exact Hnone.
Qed.

End blank_last_login.

Lemma blank_last_login_never_stale_witness :
  let row := access_row "U1" "Ann" "sales" "analyst" "active" " " in
  ∃ r, [access_row_of (λ _, None) (λ s, s) row] !! 0 = Some r
       ∧ AccessRow.last_login r = None.
Proof.
  intros row.
  destruct (blank_last_login_never_stale (λ _, None) (λ s, s) "access_list.csv"
              access_columns [row] [access_row_of (λ _, None) (λ s, s) row] 0 row
              (λ _, day 738000) example_catalog ∅ (day 737910) 90 0)
    as (r & Hr & Hnone & _).
  - vm_compute. reflexivity.
  - reflexivity.
  - vm_compute. reflexivity.
  - exists r. exact (conj Hr Hnone).
Defined.

(** ** The lines of the summary *)




